(** * Restaurant Management System (src/main.cpp)

    A shallow embedding of the table / order state machine of main.cpp and
    the properties of it that the specification states.

    The program is a console loop over two global maps ([tables], [orders]).
    Every function of the source is a state transformer over a [World] that
    holds the two maps together with the console streams, the receipt files
    and the position in the [rand()] sequence.  Functions that read from
    [cin] can block for ever on exhausted input ([Hang]) and [payForOrder]
    can read an uninitialised [char] ([Undef]); both are kept apart from a
    normal return ([Ret]). *)

From Stdlib Require Import ZArith Ascii String List Uint63 PrimFloat Lia.
From stdpp Require Import gmap strings pretty.

Set Warnings "-inexact-float".
Local Open Scope Z_scope.

(** ** Machine integers

    [int] is a 32-bit two's complement integer.  Signed overflow is undefined
    in C++; the embedding writes the usual wrap-around out, and the theorems
    below show that the seat counters never come near it. *)

Definition INT_MIN : Z := -2147483648.
Definition INT_MAX : Z := 2147483647.

Definition wrap_int (z : Z) : Z :=
  (z + 2147483648) mod 4294967296 - 2147483648.

Definition int_add (a b : Z) : Z := wrap_int (a + b).
Definition int_sub (a b : Z) : Z := wrap_int (a - b).

(** [int] to [double] conversion (exact for every 32-bit value). *)
Definition double_of_int (z : Z) : float :=
  if z <? 0 then PrimFloat.opp (PrimFloat.of_uint63 (Uint63.of_Z (- z)))
  else PrimFloat.of_uint63 (Uint63.of_Z z).

(** ** Constants and the menu (main.cpp 36-44) *)

Definition TABLE_QTY : Z := 4.
Definition TABLE_CAPACITY : Z := 4.
Definition TAX_RATE : float := 0.10%float.
Definition TIP_RATE : float := 0.20%float.

Inductive Entrees : Set := RAW_FISH | EGGS | HAM | BISC | TOAST.

(** The enumerator values, and [static_cast<Entrees>] on the values that
    name an enumerator. *)
Definition Entrees_value (e : Entrees) : Z :=
  match e with
  | RAW_FISH => 0 | EGGS => 1 | HAM => 2 | BISC => 3 | TOAST => 4
  end.

Definition static_cast_Entrees (z : Z) : option Entrees :=
  match z with
  | 0 => Some RAW_FISH | 1 => Some EGGS | 2 => Some HAM
  | 3 => Some BISC | 4 => Some TOAST
  | _ => None
  end.

Definition nl : string := String "010"%char EmptyString.

Definition entreeNames : list string :=
  ["Raw Fish"; "Eggs"; "Ham"; "Biscuits"; "Toast"]%string.
Definition entreePrices : list Z := [35; 45; 38; 38; 38].

Definition entreeNames_at (i : Z) : string :=
  nth (Z.to_nat i) entreeNames EmptyString.
Definition entreePrices_at (i : Z) : Z :=
  nth (Z.to_nat i) entreePrices 0.

(** ** Data model (main.cpp 46-58) *)

Record Table : Set := mkTable { capacity : Z; seatedGuests : Z }.
Record Order : Set :=
  mkOrder { items : list Entrees; isCompleted : bool; isPaid : bool }.

(** The default member initialisers: [Table()] and [Order()]. *)
Definition Table_default : Table := mkTable TABLE_CAPACITY 0.
Definition Order_default : Order := mkOrder [] false false.

(** ** Console and file output

    One [out_item] per object inserted with [<<]: text is kept apart from the
    numbers, so that no number formatting has to be modelled. *)

Inductive out_item : Set :=
| OStr (s : string)
| OInt (n : Z)
| ODouble (d : float)
| OEndl
| OFixed
| OSetprecision (n : Z).

(** ** The world *)

Record World : Type := mkWorld {
  tables : gmap Z Table;            (* map<int, Table> tables *)
  orders : gmap Z Order;            (* map<int, Order> orders *)
  cin : string;                     (* what is left on standard input *)
  cout : list out_item;
  cerr : list out_item;
  files : gmap string (list out_item);  (* receipts, by file name *)
  rand_seq : nat -> Z;              (* the values of successive rand() calls *)
  rand_calls : nat                  (* how many have been drawn *)
}.

Definition set_tables (f : gmap Z Table -> gmap Z Table) (w : World) : World :=
  mkWorld (f (tables w)) (orders w) (cin w) (cout w) (cerr w) (files w)
          (rand_seq w) (rand_calls w).
Definition set_orders (f : gmap Z Order -> gmap Z Order) (w : World) : World :=
  mkWorld (tables w) (f (orders w)) (cin w) (cout w) (cerr w) (files w)
          (rand_seq w) (rand_calls w).
Definition set_cin (s : string) (w : World) : World :=
  mkWorld (tables w) (orders w) s (cout w) (cerr w) (files w)
          (rand_seq w) (rand_calls w).
Definition add_cout (l : list out_item) (w : World) : World :=
  mkWorld (tables w) (orders w) (cin w) (cout w ++ l) (cerr w) (files w)
          (rand_seq w) (rand_calls w).
Definition add_cerr (l : list out_item) (w : World) : World :=
  mkWorld (tables w) (orders w) (cin w) (cout w) (cerr w ++ l) (files w)
          (rand_seq w) (rand_calls w).
Definition set_file (name : string) (l : list out_item) (w : World) : World :=
  mkWorld (tables w) (orders w) (cin w) (cout w) (cerr w)
          (<[name := l]> (files w)) (rand_seq w) (rand_calls w).
Definition bump_rand (w : World) : World :=
  mkWorld (tables w) (orders w) (cin w) (cout w) (cerr w) (files w)
          (rand_seq w) (S (rand_calls w)).

(** ** Results and the state monad *)

Inductive result (A : Type) : Type :=
| Ret (a : A) (w : World)   (* the call returns [a] in world [w] *)
| Hang                      (* the call never returns: input is exhausted *)
| Undef.                    (* the call reads an indeterminate value *)
Arguments Ret {A} a w.
Arguments Hang {A}.
Arguments Undef {A}.

Definition M (A : Type) : Type := World -> result A.

#[global] Instance M_ret : MRet M := fun A a w => Ret a w.
#[global] Instance M_bind : MBind M := fun A B f c w =>
  match c w with
  | Ret a w1 => f a w1
  | Hang => Hang
  | Undef => Undef
  end.

Definition cout_put (l : list out_item) : M unit := fun w => Ret tt (add_cout l w).
Definition cerr_put (l : list out_item) : M unit := fun w => Ret tt (add_cerr l w).

(** ** Formatted input

    [operator>>] on [cin], in the classic locale: leading white space is
    skipped; an [int] is an optional sign followed by decimal digits and the
    read fails when there is no digit or the value does not fit an [int]; a
    [char] is the next character that is not white space.  A read at end of
    input fails. *)

Definition isspace (c : ascii) : bool :=
  let n := nat_of_ascii c in
  (n =? 32)%nat || ((9 <=? n)%nat && (n <=? 13)%nat).

Definition isdigit (c : ascii) : bool :=
  let n := nat_of_ascii c in (48 <=? n)%nat && (n <=? 57)%nat.

Definition digit_value (c : ascii) : Z := Z.of_nat (nat_of_ascii c) - 48.

Fixpoint skipws (s : string) : string :=
  match s with
  | String c r => if isspace c then skipws r else s
  | EmptyString => EmptyString
  end.

Fixpoint read_digits (s : string) (acc : option Z) : option Z * string :=
  match s with
  | String c r =>
      if isdigit c
      then read_digits r (Some (10 * default 0 acc + digit_value c))
      else (acc, s)
  | EmptyString => (acc, s)
  end.

Definition read_sign (s : string) : bool * string :=
  match s with
  | String c r =>
      if Ascii.eqb c "-" then (true, r)
      else if Ascii.eqb c "+" then (false, r)
      else (false, s)
  | EmptyString => (false, s)
  end.

Definition read_int (s : string) : option Z * string :=
  let '(neg, s2) := read_sign (skipws s) in
  let '(v, s3) := read_digits s2 None in
  match v with
  | None => (None, s3)
  | Some n =>
      let val := if neg then - n else n in
      if (INT_MIN <=? val) && (val <=? INT_MAX) then (Some val, s3)
      else (None, s3)
  end.

Definition read_char (s : string) : option ascii * string :=
  match skipws s with
  | String c r => (Some c, r)
  | EmptyString => (None, EmptyString)
  end.

(** [cin.ignore(numeric_limits<streamsize>::max(), '\n')] *)
Fixpoint ignore_line (s : string) : string :=
  match s with
  | String c r => if Ascii.eqb c "010" then r else ignore_line r
  | EmptyString => EmptyString
  end.

(** [cin >> val] for an [int]: [None] is [cin.fail()]. *)
Definition cin_int : M (option Z) := fun w =>
  let '(v, rest) := read_int (cin w) in Ret v (set_cin rest w).

(** [cin >> confirm] for a [char] that was not initialised: after a failed
    read the variable is indeterminate, and the source goes on to read it. *)
Definition cin_char : M ascii := fun w =>
  match read_char (cin w) with
  | (Some c, rest) => Ret c (set_cin rest w)
  | (None, _) => Undef
  end.

(** [cin.clear(); cin.ignore(...)] *)
Definition cin_clear_ignore : M unit := fun w =>
  Ret tt (set_cin (ignore_line (cin w)) w).

(** [tolower] in the classic locale: the letters A-Z are mapped, every other
    byte is returned as it is. *)
Definition tolower (c : ascii) : ascii :=
  let n := nat_of_ascii c in
  if (65 <=? n)%nat && (n <=? 90)%nat then ascii_of_nat (n + 32) else c.

(** [to_string] on an [int]. *)
Definition to_string (z : Z) : string := pretty z.

(** ** checkNum (main.cpp 79-92)

    The [while (true)] loop runs on fuel.  Every round that does not return
    shortens the input or finds it empty, so one more round than there are
    characters left is enough: [checkNum_loop_fuel] below shows that more
    fuel never changes the result, and that [Hang] is returned only when the
    source loops for ever on exhausted input. *)

Fixpoint checkNum_loop (fuel : nat) (min max : Z) (prompt : string) : M Z :=
  match fuel with
  | O => fun _ => Hang
  | S fuel' =>
      cout_put [OStr prompt];;
      r ← cin_int;
      match r with
      | Some val =>
          if (val <? min) || (max <? val)
          then cin_clear_ignore;;
               cout_put [OStr ("Invalid input. Try again." +:+ nl)];;
               checkNum_loop fuel' min max prompt
          else mret val
      | None =>
          cin_clear_ignore;;
          cout_put [OStr ("Invalid input. Try again." +:+ nl)];;
          checkNum_loop fuel' min max prompt
      end
  end.

Definition checkNum (min max : Z) (prompt : string) : M Z := fun w =>
  checkNum_loop (S (String.length (cin w))) min max prompt w.

(** ** allOrdersPaidAndComplete (main.cpp 60-66)

    The range-for with its early [return false].  [std::map] visits the
    entries by ascending key and [map_to_list] in another order; the result
    does not depend on it ([allOrdersPaidAndComplete_spec]). *)

Fixpoint allOrdersPaidAndComplete_loop (l : list (Z * Order)) : bool :=
  match l with
  | [] => true
  | (tableId, order) :: rest =>
      if negb (isCompleted order) || negb (isPaid order) then false
      else allOrdersPaidAndComplete_loop rest
  end.

Definition allOrdersPaidAndComplete (w : World) : bool :=
  allOrdersPaidAndComplete_loop (map_to_list (orders w)).

(** [orders.empty()] and [orders.count(tableId)] *)
Definition orders_empty (w : World) : bool := bool_decide (orders w = ∅).
Definition orders_count (tableId : Z) (w : World) : bool :=
  bool_decide (is_Some (orders w !! tableId)).

(** [m[k]] on a [std::map]: a missing key is first inserted with the default
    value. *)
Definition map_index {V : Type} (dflt : V) (k : Z) (m : gmap Z V) : V * gmap Z V :=
  match m !! k with
  | Some v => (v, m)
  | None => (dflt, <[k := dflt]> m)
  end.

Definition tables_index (tableId : Z) : M Table := fun w =>
  let '(t, m) := map_index Table_default tableId (tables w) in
  Ret t (set_tables (fun _ => m) w).

Definition orders_index (tableId : Z) : M Order := fun w =>
  let '(o, m) := map_index Order_default tableId (orders w) in
  Ret o (set_orders (fun _ => m) w).

(** ** initializeTables (main.cpp 68-71) *)

Definition initializeTables : M unit := fun w =>
  Ret tt (set_tables (fun m =>
            foldl (fun m i => <[i := Table_default]> m) m (seqZ 1 TABLE_QTY)) w).

(** ** showMenu (main.cpp 73-77) *)

Definition showMenu : M unit :=
  cout_put [OStr ("--- Menu ---" +:+ nl)];;
  cout_put (flat_map (fun i =>
              [OInt (i + 1); OStr ". "; OStr (entreeNames_at i);
               OStr " - $"; OInt (entreePrices_at i); OStr nl])
            (seqZ 0 (Z.of_nat (length entreeNames)))).

(** ** placeOrder (main.cpp 94-126) *)

Definition table_prompt : string :=
  "Enter table number (1-" +:+ to_string TABLE_QTY +:+ "): ".
Definition guests_prompt : string := "Enter number of guests to seat: ".

Definition seat_word (availableSeats : Z) : string :=
  if availableSeats =? 1 then "" else "s".

(** The [for] loop of lines 119-122: one menu choice per guest. *)
Fixpoint placeOrder_items (n : nat) (i : Z) (acc : list Entrees) : M (list Entrees) :=
  match n with
  | O => mret acc
  | S n' =>
      choice ← checkNum 1 (Z.of_nat (length entreeNames))
                 ("Guest " +:+ to_string (i + 1) +:+ ", enter item number: ");
      match static_cast_Entrees (choice - 1) with
      | Some e => placeOrder_items n' (i + 1) (acc ++ [e])
      | None => fun _ => Undef
      end
  end.

(** The notice of lines 104-112. *)
Definition placeOrder_notice (availableSeats : Z) : M unit :=
  if availableSeats <=? 2 then
    cout_put [OStr (nl +:+ "Act quickly! ")];;
    cout_put [OStr "Only "; OInt availableSeats; OStr " seat";
              OStr (seat_word availableSeats);
              OStr (" left at this table." +:+ nl); OEndl]
  else
    cout_put [OStr (nl +:+ "Notice:" +:+ nl)];;
    cout_put [OStr "There ";
              OStr (if availableSeats =? 1 then "is" else "are"); OStr " ";
              OInt availableSeats; OStr " seat";
              OStr (seat_word availableSeats);
              OStr (" available at this table." +:+ nl); OEndl].

Definition placeOrder : M unit :=
  tableId ← checkNum 1 TABLE_QTY table_prompt;
  table ← tables_index tableId;
  let availableSeats := int_sub TABLE_CAPACITY (seatedGuests table) in
  if availableSeats <=? 0 then
    cout_put [OStr "Sorry! Table "; OInt tableId; OStr (" is full." +:+ nl)]
  else
    placeOrder_notice availableSeats;;
    guests ← checkNum 1 availableSeats guests_prompt;
    (fun w => Ret tt (set_tables (alter (fun t =>
                 mkTable (capacity t) (int_add (seatedGuests t) guests)) tableId) w));;
    showMenu;;
    new_items ← placeOrder_items (Z.to_nat guests) 0 [];
    order ← orders_index tableId;
    (fun w => Ret tt (set_orders (insert tableId
                 (mkOrder (items order ++ new_items)
                          (isCompleted order) (isPaid order))) w));;
    cout_put [OStr "Order placed for table "; OInt tableId;
              OStr (" successfully." +:+ nl)].

(** ** checkTableStatus (main.cpp 128-138) *)

Definition status_text (order : Order) : string :=
  if negb (isCompleted order) then "awaiting completion"
  else if negb (isPaid order) then "awaiting payment"
  else "all done".

Definition checkTableStatus_line (w : World) (tableId : Z) : list out_item :=
  match orders w !! tableId with
  | Some order =>
      [OStr "Table #"; OInt tableId; OStr " status: ";
       OStr (status_text order); OEndl]
  | None => []
  end.

Definition checkTableStatus : M unit := fun w =>
  cout_put (flat_map (checkTableStatus_line w) (seqZ 1 TABLE_QTY)) w.

(** ** checkOrderAndTableStatus (main.cpp 140-148) *)

Definition checkOrderAndTableStatus (promptMessage : string) : M Z := fun w =>
  if negb (allOrdersPaidAndComplete w) then
    (checkTableStatus;; checkNum 1 TABLE_QTY promptMessage) w
  else
    (cout_put [OStr ("No pending orders / all have been completed and paid." +:+ nl)];;
     mret (-1)) w.

(** ** completeOrder (main.cpp 150-163) *)

Definition completeOrder : M unit :=
  tableId ← checkOrderAndTableStatus "Enter table number to complete order: ";
  if tableId =? -1 then mret tt
  else fun w =>
    if negb (orders_count tableId w) then
      cerr_put [OStr "No order found for Table "; OInt tableId; OStr ("." +:+ nl)] w
    else
      (order ← orders_index tableId;
       (fun w => Ret tt (set_orders (insert tableId
                    (mkOrder (items order) true (isPaid order))) w));;
       cout_put [OStr "Order for table "; OInt tableId; OStr ": ";
                 OStr "*marked as complete";
                 OStr ("*awaiting payment." +:+ nl); OEndl]) w.

(** ** payForOrder (main.cpp 165-224) *)

(** The four locals of lines 183-189. *)
Record Bill : Set := mkBill { subtotal : Z; tax : float; tip : float; total : float }.

Definition bill_of (order_items : list Entrees) : Bill :=
  let subtotal :=
    fold_left (fun acc item => int_add acc (entreePrices_at (Entrees_value item)))
              order_items 0 in
  let tax := PrimFloat.mul (double_of_int subtotal) TAX_RATE in
  let tip := PrimFloat.mul (double_of_int subtotal) TIP_RATE in
  let total := PrimFloat.add (PrimFloat.add (double_of_int subtotal) tax) tip in
  mkBill subtotal tax tip total.

Definition bill_shown (b : Bill) : list out_item :=
  [OFixed; OSetprecision 2;
   OStr "Subtotal: $"; OInt (subtotal b); OStr nl;
   OStr "Tax: $"; ODouble (tax b); OStr nl;
   OStr "Tip: $"; ODouble (tip b); OStr nl;
   OStr "Total: $"; ODouble (total b); OStr nl].

Definition receipt (tableId : Z) (order : Order) (b : Bill) : list out_item :=
  [OStr "*** RECEIPT FOR TABLE "; OInt tableId; OStr (" ***" +:+ nl);
   OStr ("-------------------------" +:+ nl)]
  ++ flat_map (fun item =>
       [OStr (entreeNames_at (Entrees_value item)); OStr " - $";
        OInt (entreePrices_at (Entrees_value item)); OStr nl]) (items order)
  ++ [OStr ("-------------------------" +:+ nl);
      OFixed; OSetprecision 2;
      OStr "Subtotal: $"; OInt (subtotal b); OStr nl;
      OStr "Tip (20%): $"; ODouble (tip b); OStr nl;
      OStr "Tax (10%): $"; ODouble (tax b); OStr nl;
      OStr "Total: $"; ODouble (total b); OStr nl].

(** [rand()]: the next value of the sequence. *)
Definition rand : M Z := fun w => Ret (rand_seq w (rand_calls w)) (bump_rand w).

Definition receipt_name (transId : Z) : string :=
  "Transaction#" +:+ to_string transId +:+ ".txt".

Definition payForOrder : M unit :=
  tableId ← checkOrderAndTableStatus "Enter table number to pay: ";
  if tableId =? -1 then mret tt
  else fun w =>
    if negb (orders_count tableId w) then
      cerr_put [OStr "No order found for Table "; OInt tableId; OStr ("." +:+ nl)] w
    else
      (order ← orders_index tableId;
       if negb (isCompleted order) then
         cerr_put [OStr "Order for Table "; OInt tableId;
                   OStr " is not completed yet!"; OEndl];;
         cerr_put [OStr ("Please complete the order before payment." +:+ nl); OEndl]
       else
         let b := bill_of (items order) in
         cout_put (bill_shown b);;
         cout_put [OStr "Confirm payment? (y/n): "];;
         confirm ← cin_char;
         if Ascii.eqb (tolower confirm) "y" then
           (fun w => Ret tt (set_orders (insert tableId
                        (mkOrder (items order) (isCompleted order) true)) w));;
           table ← tables_index tableId;
           (fun w => Ret tt (set_tables (insert tableId
                        (mkTable (capacity table) 0)) w));;
           r ← rand;
           let transId := int_add (Z.rem r 9000) 1000 in
           let filename := receipt_name transId in
           (fun w => Ret tt (set_file filename
                        (receipt tableId (mkOrder (items order) (isCompleted order) true) b) w));;
           cout_put [OStr "Payment successful. Receipt saved to '";
                     OStr filename; OStr ("'." +:+ nl)]
         else
           cout_put [OStr ("Payment cancelled." +:+ nl)]) w.

(** ** showMenuOptions (main.cpp 226-237) *)

Definition showMenuOptions : M unit := fun w =>
  (cout_put [OStr (nl +:+ "--- MESSIJOE'S MAIN MENU ---" +:+ nl)];;
   cout_put [OStr ("1. Enter Order" +:+ nl)];;
   (if negb (orders_empty w) && negb (allOrdersPaidAndComplete w) then
      cout_put [OStr ("2. Complete Order" +:+ nl)];;
      cout_put [OStr ("3. Calculate and Pay Bill" +:+ nl)]
    else mret tt);;
   (if negb (orders_empty w) && allOrdersPaidAndComplete w then
      cout_put [OStr ("4. Close the Restaurant" +:+ nl)]
    else mret tt)) w.

(** ** main (main.cpp 239-279)

    [main_iter] is one round of the [while (inService)] loop and returns the
    value of [inService] at its end. *)

Definition choice_prompt : string := "Choose an option: ".

Definition main_iter : M bool :=
  showMenuOptions;;
  choice ← checkNum 1 4 choice_prompt;
  (fun w =>
    match choice with
    | 1 => (placeOrder;; mret true) w
    | 2 =>
        if negb (orders_empty w) && negb (allOrdersPaidAndComplete w)
        then (completeOrder;; mret true) w
        else (cout_put [OStr ("No orders available to complete." +:+ nl)];;
              mret true) w
    | 3 =>
        if negb (orders_empty w) && negb (allOrdersPaidAndComplete w)
        then (payForOrder;; mret true) w
        else (cout_put [OStr ("No unpaid orders available." +:+ nl)];;
              mret true) w
    | 4 =>
        if negb (orders_empty w) && allOrdersPaidAndComplete w
        then (cout_put [OStr ("Goodbye!" +:+ nl)];; mret false) w
        else (cout_put [OStr ("Cannot close — orders still pending." +:+ nl)];;
              mret true) w
    | _ => (cout_put [OStr ("Invalid option. Please try again." +:+ nl)];;
            mret true) w
    end) : M bool.

Fixpoint main_loop (fuel : nat) : M Z :=
  match fuel with
  | O => fun _ => Hang
  | S fuel' =>
      inService ← main_iter;
      if inService : bool then main_loop fuel' else mret 0
  end.

(** The fuel of [main] is one more than the length of the input, which the
    loop can never use up ([main_loop_fuel]). *)
Definition main : M Z :=
  initializeTables;;
  ((fun w => main_loop (S (String.length (cin w))) w) : M Z).

(** The world in which [main] starts: both maps empty, nothing printed, no
    file written, [input] on standard input. *)
Definition init_world (input : string) (rs : nat -> Z) : World :=
  mkWorld ∅ ∅ input [] [] ∅ rs 0.

(** Standard input typed line by line. *)
Definition stdin_lines (l : list string) : string :=
  fold_right (fun s acc => s +:+ nl +:+ acc) EmptyString l.

(** * Vocabulary of the properties

    Relations between worlds that say what one call did, the invariants, the
    reachable worlds, and the concrete runs that serve as examples. *)

(** Two worlds with the same maps, files and [rand()] position: they differ
    by console traffic only. *)
Definition same_state (w w' : World) : Prop :=
  tables w' = tables w /\ orders w' = orders w /\ files w' = files w /\
  rand_calls w' = rand_calls w /\ rand_seq w' = rand_seq w.

(** An order is settled when it is completed and paid. *)
Definition settled (o : Order) : Prop := isCompleted o = true /\ isPaid o = true.

(** The table and the order that [tables[tableId]] and [orders[tableId]]
    denote, a missing one being created on the spot. *)
Definition table_at (w : World) (tableId : Z) : Table :=
  default Table_default (tables w !! tableId).
Definition order_at (w : World) (tableId : Z) : Order :=
  default Order_default (orders w !! tableId).

(** [availableSeats] as line 98 computes it for the table. *)
Definition availableSeats_at (w : World) (tableId : Z) : Z :=
  int_sub TABLE_CAPACITY (seatedGuests (table_at w tableId)).

(** The two ways in which [placeOrder] returns: the table is full, or
    [guests] people are seated and their choices appended to the order. *)
Inductive placed (w w' : World) : Prop :=
| placed_full (tableId : Z) :
    1 <= tableId <= TABLE_QTY ->
    availableSeats_at w tableId <= 0 ->
    tables w' = <[tableId := table_at w tableId]> (tables w) ->
    orders w' = orders w ->
    placed w w'
| placed_seated (tableId guests : Z) (new_items : list Entrees) :
    1 <= tableId <= TABLE_QTY ->
    1 <= guests <= availableSeats_at w tableId ->
    length new_items = Z.to_nat guests ->
    tables w' = <[tableId := mkTable (capacity (table_at w tableId))
                    (int_add (seatedGuests (table_at w tableId)) guests)]> (tables w) ->
    orders w' = <[tableId := mkOrder (items (order_at w tableId) ++ new_items)
                    (isCompleted (order_at w tableId))
                    (isPaid (order_at w tableId))]> (orders w) ->
    placed w w'.

(** [completeOrder] either leaves both maps alone or sets the [isCompleted]
    flag of one existing order. *)
Inductive completed (w w' : World) : Prop :=
| completed_intro (tableId : Z) (o : Order) :
    1 <= tableId <= TABLE_QTY ->
    orders w !! tableId = Some o ->
    orders w' = <[tableId := mkOrder (items o) true (isPaid o)]> (orders w) ->
    tables w' = tables w -> files w' = files w ->
    rand_calls w' = rand_calls w -> rand_seq w' = rand_seq w ->
    completed w w'.

(** [payForOrder] either leaves maps and files alone or settles one completed
    order: the order is marked paid, its table emptied, a receipt written. *)
Inductive paid (w w' : World) : Prop :=
| paid_intro (tableId : Z) (o : Order) :
    1 <= tableId <= TABLE_QTY ->
    orders w !! tableId = Some o ->
    isCompleted o = true ->
    orders w' = <[tableId := mkOrder (items o) (isCompleted o) true]> (orders w) ->
    tables w' = <[tableId := mkTable (capacity (table_at w tableId)) 0]> (tables w) ->
    files w' =
      <[receipt_name (int_add (Z.rem (rand_seq w (rand_calls w)) 9000) 1000) :=
          receipt tableId (mkOrder (items o) (isCompleted o) true) (bill_of (items o))]>
        (files w) ->
    rand_calls w' = S (rand_calls w) -> rand_seq w' = rand_seq w ->
    paid w w'.

(** One round of the main loop is console traffic around at most one of the
    three operations. *)
Inductive transition (w w' : World) : Prop :=
| transition_console : same_state w w' -> transition w w'
| transition_placed :
    placed w w' -> files w' = files w -> rand_calls w' = rand_calls w ->
    rand_seq w' = rand_seq w -> transition w w'
| transition_completed : completed w w' -> transition w w'
| transition_paid : paid w w' -> transition w w'.

(** The reachable worlds.  [main] starts from empty maps, sets the tables up
    and runs rounds of its loop.  The three operations are steps of their own
    as well (with or without the gate that [main] puts before two of them),
    and so is whatever the user types next. *)
Inductive reachable : World -> Prop :=
| reachable_start (input : string) (rs : nat -> Z) (w : World) :
    initializeTables (init_world input rs) = Ret tt w -> reachable w
| reachable_main_iter (w w' : World) (b : bool) :
    reachable w -> main_iter w = Ret b w' -> reachable w'
| reachable_placeOrder (w w' : World) :
    reachable w -> placeOrder w = Ret tt w' -> reachable w'
| reachable_completeOrder (w w' : World) :
    reachable w -> completeOrder w = Ret tt w' -> reachable w'
| reachable_payForOrder (w w' : World) :
    reachable w -> payForOrder w = Ret tt w' -> reachable w'
| reachable_typed (w : World) (s : string) :
    reachable w -> reachable (set_cin s w).

(** Every table has the default capacity and between 0 and [capacity]
    guests. *)
Definition seats_ok (w : World) : Prop :=
  forall tableId t, tables w !! tableId = Some t ->
    capacity t = TABLE_CAPACITY /\ 0 <= seatedGuests t <= capacity t.

(** Every paid order is completed. *)
Definition paid_ok (w : World) : Prop :=
  forall tableId o, orders w !! tableId = Some o ->
    isPaid o = true -> isCompleted o = true.

(** The payment prompt was answered with [tableId]. *)
Definition pay_prompt (w : World) (tableId : Z) (w1 : World) : Prop :=
  checkOrderAndTableStatus "Enter table number to pay: " w = Ret tableId w1 /\
  tableId <> -1.

(** The world in which a confirmed payment ends. *)
Definition paid_world (tableId : Z) (order : Order) (rest : string) (w1 : World) : World :=
  let b := bill_of (items order) in
  let filename :=
    receipt_name (int_add (Z.rem (rand_seq w1 (rand_calls w1)) 9000) 1000) in
  mkWorld
    (<[tableId := mkTable (capacity (table_at w1 tableId)) 0]> (tables w1))
    (<[tableId := mkOrder (items order) (isCompleted order) true]> (orders w1))
    rest
    (cout w1 ++ bill_shown b ++ [OStr "Confirm payment? (y/n): "] ++
       [OStr "Payment successful. Receipt saved to '"; OStr filename;
        OStr ("'." +:+ nl)])
    (cerr w1)
    (<[filename := receipt tableId
                     (mkOrder (items order) (isCompleted order) true) b]> (files w1))
    (rand_seq w1)
    (S (rand_calls w1)).

(** The world in which a payment that was not confirmed ends. *)
Definition cancelled_world (order : Order) (rest : string) (w1 : World) : World :=
  mkWorld (tables w1) (orders w1) rest
    (cout w1 ++ bill_shown (bill_of (items order)) ++
       [OStr "Confirm payment? (y/n): "] ++ [OStr ("Payment cancelled." +:+ nl)])
    (cerr w1) (files w1) (rand_seq w1) (rand_calls w1).

(** A call that returns has not put anything back on standard input
    ([reads]); it has read at least one character ([reads_some]). *)
Definition reads {A : Type} (c : M A) : Prop :=
  forall w a w', c w = Ret a w' ->
    (String.length (cin w') <= String.length (cin w))%nat.
Definition reads_some {A : Type} (c : M A) : Prop :=
  forall w a w', c w = Ret a w' ->
    (String.length (cin w') < String.length (cin w))%nat.

(** ** Concrete runs *)

(** The world a call returns in (the starting world when it does not). *)
Definition run {A : Type} (c : M A) (w : World) : World :=
  match c w with
  | Ret _ w' => w'
  | _ => w
  end.

(** [n] rounds of the main loop, stopping early when the restaurant closes. *)
Fixpoint main_rounds (n : nat) : M bool :=
  match n with
  | O => mret true
  | S n' =>
      inService ← main_iter;
      if inService : bool then main_rounds n' else mret false
  end.

(** [rand()] answering 0, 1, 2, ... *)
Definition rand_count : nat -> Z := Z.of_nat.

(** The world after [initializeTables], with [input] typed. *)
Definition start_world (input : list string) : World :=
  run initializeTables (init_world (stdin_lines input) rand_count).

(** Table 1 and table 2 order, table 1 is completed and paid; the input goes
    on with a second payment of table 1. *)
Definition repay_input : list string :=
  ["1"; "1"; "1"; "1";     (* option 1: table 1, one guest, Raw Fish *)
   "1"; "2"; "1"; "3";     (* option 1: table 2, one guest, Ham *)
   "2"; "1";               (* option 2: complete table 1 *)
   "3"; "1"; "y";          (* option 3: pay table 1 *)
   "1"; "y"]%string.       (* payForOrder again: table 1, confirmed *)

Definition repay_world : World := run (main_rounds 4) (start_world repay_input).

(** Table 1 orders, is completed and paid, orders again; table 2 orders;
    table 1 is paid a second time. *)
Definition reorder_input : list string :=
  ["1"; "1"; "1"; "1";     (* option 1: table 1, one guest, Raw Fish *)
   "2"; "1";               (* option 2: complete table 1 *)
   "3"; "1"; "y";          (* option 3: pay table 1 *)
   "1"; "1"; "1"; "2";     (* option 1: table 1 again, one guest, Eggs *)
   "1"; "2"; "1"; "3";     (* option 1: table 2, one guest, Ham *)
   "3"; "1"; "y"]%string.  (* option 3: pay table 1 again *)

Definition reorder_world (n : nat) : World :=
  run (main_rounds n) (start_world reorder_input).

(** Table 1 seats two guests (Raw Fish, Eggs); the input goes on with a
    payment attempt on table 1. *)
Definition unfinished_input : list string :=
  ["1"; "1"; "2"; "1"; "2"; "1"; "n"]%string.

Definition unfinished_world : World :=
  run (main_rounds 1) (start_world unfinished_input).

(** Scenario A of the specification: table 1 seats two guests who order Raw
    Fish and Eggs, the order is completed; the input goes on with the
    payment of table 1. *)
Definition scenario_A_input : list string :=
  ["1"; "1"; "2"; "1"; "2";   (* option 1: table 1, two guests, items 1 and 2 *)
   "2"; "1";                  (* option 2: complete table 1 *)
   "1"; "y"]%string.          (* payForOrder: table 1, confirmed *)

Definition scenario_A_world : World :=
  run (main_rounds 2) (start_world scenario_A_input).

(** A guest count of 5 typed at an empty table of four, then 2. *)
Definition overfull_input : list string :=
  ["1"; "5"; "2"; "1"; "1"]%string.

(** The guard of [case 4] (main.cpp 266), which is also the condition under
    which [showMenuOptions] lists "4. Close the Restaurant". *)
Definition canClose (w : World) : bool :=
  negb (orders_empty w) && allOrdersPaidAndComplete w.

(** The world after [checkNum] has refused an entry: the prompt and the
    complaint are printed, the rest of the line is dropped. *)
Definition refused_entry (prompt : string) (rest : string) (w : World) : World :=
  add_cout [OStr ("Invalid input. Try again." +:+ nl)]
    (set_cin (ignore_line rest) (add_cout [OStr prompt] w)).

(** The worlds that [placeOrder] goes through when table 1, settled and
    empty, orders Eggs for one guest. *)
Definition reorder_typed : World :=
  set_cin (stdin_lines ["1"; "1"; "2"]%string) (reorder_world 3).
Definition reorder_w1 : World :=
  run (checkNum 1 TABLE_QTY table_prompt) reorder_typed.
Definition reorder_w3 : World :=
  run (tables_index 1;; placeOrder_notice TABLE_CAPACITY;;
       checkNum 1 TABLE_CAPACITY guests_prompt) reorder_w1.
Definition reorder_w5 : World :=
  run (showMenu;; placeOrder_items 1 0 [])
    (set_tables (alter (fun t => mkTable (capacity t)
                                   (int_add (seatedGuests t) 1)) 1) reorder_w3).

(** ** Vocabulary of the further properties *)

(** The character of the decimal digit [d]. *)
Definition digit_char (d : Z) : ascii := ascii_of_nat (48 + Z.to_nat d).

(** The completion prompt was answered with [tableId]. *)
Definition complete_prompt (w : World) (tableId : Z) (w1 : World) : Prop :=
  checkOrderAndTableStatus "Enter table number to complete order: " w
    = Ret tableId w1 /\
  tableId <> -1.

(** An order record that was only added to: the items it had come first and
    no flag was cleared. *)
Definition order_grows (o o' : Order) : Prop :=
  (exists more, items o' = items o ++ more) /\
  (isCompleted o = true -> isCompleted o' = true) /\
  (isPaid o = true -> isPaid o' = true).

(** The tables are those of [initializeTables], the orders belong to them and
    hold at least one item, and no table seats more guests than its order
    has items. *)
Definition tables_fixed (w : World) : Prop :=
  forall tableId, is_Some (tables w !! tableId) <-> 1 <= tableId <= TABLE_QTY.
Definition orders_placed (w : World) : Prop :=
  forall tableId o, orders w !! tableId = Some o ->
    1 <= tableId <= TABLE_QTY /\ items o <> [].
Definition guests_ordered (w : World) : Prop :=
  forall tableId t, tables w !! tableId = Some t ->
    seatedGuests t <= Z.of_nat (length (items (order_at w tableId))).

(** The sum of the prices of a list of items, as an integer. *)
Definition prices_sum (l : list Entrees) : Z :=
  foldr (fun item acc => entreePrices_at (Entrees_value item) + acc) 0 l.

(** The transaction id of line 205, for the value [r] of [rand()]. *)
Definition transId_of (r : Z) : Z := int_add (Z.rem r 9000) 1000.

(** Orders exist and one of them is not settled: the condition under which
    [showMenuOptions] lists options 2 and 3 and [main] lets them through. *)
Definition pending (w : World) : bool :=
  negb (orders_empty w) && negb (allOrdersPaidAndComplete w).

(** One table orders, is completed and paid, and the restaurant closes. *)
Definition closing_input : list string :=
  ["1"; "1"; "2"; "1"; "2";   (* option 1: table 1, two guests, items 1 and 2 *)
   "2"; "1";                  (* option 2: complete table 1 *)
   "3"; "1"; "y";             (* option 3: pay table 1, confirmed *)
   "4"]%string.               (* option 4: close *)

(** * Properties *)

(** ** Stepping through the monad

    The setters of [World] nest deeply in the worlds that the operations
    return, so projections are reduced by [wsimpl], which only unfolds what
    a projection needs, and the formatting functions are kept folded. *)

Arguments to_string : simpl never.
Arguments receipt_name : simpl never.
Arguments receipt : simpl never.
Arguments bill_of : simpl never.
Arguments bill_shown : simpl never.
Arguments int_add : simpl never.
Arguments int_sub : simpl never.

Ltac wsimpl :=
  cbn [add_cout add_cerr set_cin set_tables set_orders set_file bump_rand
       tables orders cin cout cerr files rand_seq rand_calls
       capacity seatedGuests items isCompleted isPaid] in *.

Lemma bind_Ret {A B : Type} (c : M A) (k : A -> M B) (w w1 : World) (a : A) :
  c w = Ret a w1 -> (c ≫= k) w = k a w1.
Proof. intros H. unfold mbind, M_bind. now rewrite H. Qed.

Lemma bind_inv {A B : Type} (c : M A) (k : A -> M B) (w w' : World) (b : B) :
  (c ≫= k) w = Ret b w' -> exists a w1, c w = Ret a w1 /\ k a w1 = Ret b w'.
Proof.
  unfold mbind, M_bind. destruct (c w) as [a w1| |]; try discriminate.
  intros H. now exists a, w1.
Qed.

Lemma same_state_refl w : same_state w w.
Proof. now unfold same_state. Qed.

Lemma same_state_trans w1 w2 w3 :
  same_state w1 w2 -> same_state w2 w3 -> same_state w1 w3.
Proof. unfold same_state. intuition congruence. Qed.

Lemma same_state_add_cout l w : same_state w (add_cout l w).
Proof. now unfold same_state. Qed.

Lemma same_state_add_cerr l w : same_state w (add_cerr l w).
Proof. now unfold same_state. Qed.

Lemma same_state_set_cin s w : same_state w (set_cin s w).
Proof. now unfold same_state. Qed.

Create HintDb rms.
#[local] Hint Resolve same_state_refl same_state_add_cout same_state_add_cerr
  same_state_set_cin : rms.

(** ** Input: every read shortens what is left *)

Lemma skipws_length s : (String.length (skipws s) <= String.length s)%nat.
Proof.
  induction s as [|c r IH]; simpl; [lia|].
  destruct (isspace c); simpl; lia.
Qed.

Lemma read_digits_length s acc v r :
  read_digits s acc = (v, r) ->
  (String.length r <= String.length s)%nat /\
  (acc = None -> v <> None -> (String.length r < String.length s)%nat).
Proof.
  revert acc v r. induction s as [|c s IH]; simpl; intros acc v r H.
  - inversion H; subst. split; [simpl; lia | congruence].
  - destruct (isdigit c).
    + apply IH in H as [H1 _]. split; lia.
    + inversion H; subst. split; [simpl; lia | congruence].
Qed.

Lemma read_sign_length s b r :
  read_sign s = (b, r) -> (String.length r <= String.length s)%nat.
Proof.
  destruct s as [|c s]; simpl.
  - intros H; inversion H; subst; simpl; lia.
  - destruct (Ascii.eqb c "-"); [|destruct (Ascii.eqb c "+")];
      intros H; inversion H; subst; simpl; lia.
Qed.

Lemma read_int_length s v r :
  read_int s = (v, r) ->
  (String.length r <= String.length s)%nat /\
  (v <> None -> (String.length r < String.length s)%nat).
Proof.
  unfold read_int.
  destruct (read_sign (skipws s)) as [neg s2] eqn:Hs.
  destruct (read_digits s2 None) as [d s3] eqn:Hd.
  apply read_sign_length in Hs. apply read_digits_length in Hd as [Hd1 Hd2].
  pose proof (skipws_length s) as Hw.
  destruct d as [n|].
  - assert (String.length s3 < String.length s2)%nat as Hlt
      by (apply Hd2; congruence).
    destruct (_ && _); intros H; inversion H; subst; split; lia.
  - intros H; inversion H; subst. split; [lia | congruence].
Qed.

Lemma ignore_line_length s :
  (String.length (ignore_line s) <= String.length s)%nat /\
  (s <> EmptyString -> (String.length (ignore_line s) < String.length s)%nat).
Proof.
  induction s as [|c r [IH1 IH2]]; simpl.
  - split; [lia | congruence].
  - destruct (Ascii.eqb c "010"); split; intros; lia.
Qed.

(** A refused read, followed by [ignore], shortens a non-empty input. *)
Lemma refused_read_length s v r :
  read_int s = (v, r) -> s <> EmptyString ->
  (String.length (ignore_line r) < String.length s)%nat.
Proof.
  intros H Hs. apply read_int_length in H as [H1 _].
  destruct (ignore_line_length r) as [H2 H3].
  destruct r as [|c r].
  - simpl. destruct s; [congruence | simpl; lia].
  - assert (String.length (ignore_line (String c r)) < String.length (String c r))%nat
      as Hlt by (apply H3; congruence).
    lia.
Qed.

(** ** checkNum *)

(** One round of [checkNum], unfolded. *)
Lemma checkNum_loop_step fuel min max prompt w :
  checkNum_loop (S fuel) min max prompt w =
  match read_int (cin w) with
  | (Some val, rest) =>
      if (val <? min) || (max <? val)
      then checkNum_loop fuel min max prompt
             (add_cout [OStr ("Invalid input. Try again." +:+ nl)]
                (set_cin (ignore_line rest) (add_cout [OStr prompt] w)))
      else Ret val (set_cin rest (add_cout [OStr prompt] w))
  | (None, rest) =>
      checkNum_loop fuel min max prompt
        (add_cout [OStr ("Invalid input. Try again." +:+ nl)]
           (set_cin (ignore_line rest) (add_cout [OStr prompt] w)))
  end.
Proof.
  simpl. unfold mbind, M_bind, cout_put, cin_int. simpl.
  destruct (read_int (cin w)) as [[val|] rest]; simpl; [|reflexivity].
  destruct (_ || _); reflexivity.
Qed.

(** On exhausted input [checkNum] never returns, whatever the fuel. *)
Lemma checkNum_loop_eof fuel min max prompt w :
  cin w = EmptyString -> checkNum_loop fuel min max prompt w = Hang.
Proof.
  revert w. induction fuel as [|fuel IH]; intros w Hw; [reflexivity|].
  rewrite checkNum_loop_step, Hw. simpl. apply IH. reflexivity.
Qed.

(** Fuel beyond the length of the input changes nothing: [Hang] stands for
    the endless loop of the source and for nothing else. *)
Lemma checkNum_loop_fuel f1 f2 min max prompt w :
  (String.length (cin w) < f1)%nat -> (String.length (cin w) < f2)%nat ->
  checkNum_loop f1 min max prompt w = checkNum_loop f2 min max prompt w.
Proof.
  revert f2 w. induction f1 as [|f1 IH]; intros f2 w H1 H2; [lia|].
  destruct f2 as [|f2]; [lia|].
  destruct (cin w) as [|c s] eqn:Hcin.
  { now rewrite !checkNum_loop_eof. }
  rewrite !checkNum_loop_step.
  destruct (read_int (cin w)) as [v rest] eqn:Hr.
  assert (String.length (ignore_line rest) < String.length (cin w))%nat as Hlt
    by (eapply refused_read_length; [eassumption | congruence]).
  rewrite Hcin in Hlt.
  destruct v as [val|].
  - destruct (_ || _); [|reflexivity]. apply IH; simpl in *; lia.
  - apply IH; simpl in *; lia.
Qed.

(** [checkNum] returns a value of the range and touches the console only. *)
Lemma checkNum_loop_Ret fuel min max prompt w v w' :
  checkNum_loop fuel min max prompt w = Ret v w' ->
  min <= v <= max /\ same_state w w' /\ cerr w' = cerr w.
Proof.
  revert w. induction fuel as [|fuel IH]; intros w; [discriminate|].
  rewrite checkNum_loop_step.
  destruct (read_int (cin w)) as [[val|] rest].
  - destruct ((val <? min) || (max <? val)) eqn:Hb.
    + intros H. apply IH in H as (Hv & Hs & He). now repeat split; try apply Hs.
    + intros H. inversion H; subst. apply orb_false_iff in Hb as [Hb1 Hb2].
      split; [lia|]. now split.
  - intros H. apply IH in H as (Hv & Hs & He). now repeat split; try apply Hs.
Qed.

Lemma checkNum_Ret min max prompt w v w' :
  checkNum min max prompt w = Ret v w' ->
  min <= v <= max /\ same_state w w' /\ cerr w' = cerr w.
Proof. apply checkNum_loop_Ret. Qed.

(** ** allOrdersPaidAndComplete *)

Lemma allOrdersPaidAndComplete_loop_spec (l : list (Z * Order)) :
  allOrdersPaidAndComplete_loop l = true <->
  forall tableId o, (tableId, o) ∈ l -> settled o.
Proof.
  unfold settled. induction l as [|[t o] l IH]; simpl.
  - split; [|reflexivity]. intros _ tableId o Hin. inversion Hin.
  - destruct (isCompleted o) eqn:Hc, (isPaid o) eqn:Hp; simpl;
      try (split; [discriminate|];
           intros H; destruct (H t o) as [H1 H2]; [left | congruence]).
    rewrite IH. split.
    + intros H tableId o' Hin. inversion Hin; subst; [now split | eauto].
    + intros H tableId o' Hin. apply (H tableId). now right.
Qed.

(** The loop answers [true] exactly when every order of the map is completed
    and paid, in whatever order the entries are visited. *)
Lemma allOrdersPaidAndComplete_spec w :
  allOrdersPaidAndComplete w = true <->
  forall tableId o, orders w !! tableId = Some o -> settled o.
Proof.
  unfold allOrdersPaidAndComplete. rewrite allOrdersPaidAndComplete_loop_spec.
  split; intros H tableId o Hin; apply (H tableId); now apply elem_of_map_to_list.
Qed.

Lemma allOrdersPaidAndComplete_false w tableId o :
  orders w !! tableId = Some o -> ~ settled o ->
  allOrdersPaidAndComplete w = false.
Proof.
  intros Ho Hn. destruct (allOrdersPaidAndComplete w) eqn:Ha; [|reflexivity].
  exfalso. apply Hn. eapply allOrdersPaidAndComplete_spec; eassumption.
Qed.

Lemma allOrdersPaidAndComplete_same w w' :
  orders w' = orders w -> allOrdersPaidAndComplete w' = allOrdersPaidAndComplete w.
Proof. unfold allOrdersPaidAndComplete. now intros ->. Qed.

Lemma orders_empty_spec w : orders_empty w = true <-> orders w = ∅.
Proof. unfold orders_empty. apply bool_decide_eq_true. Qed.

Lemma orders_count_spec tableId w :
  orders_count tableId w = true <-> is_Some (orders w !! tableId).
Proof. unfold orders_count. apply bool_decide_eq_true. Qed.

(** ** [operator[]] *)

Lemma map_index_insert {V : Type} (dflt : V) (k : Z) (m : gmap Z V) :
  map_index dflt k m =
  (default dflt (m !! k), <[k := default dflt (m !! k)]> m).
Proof.
  unfold map_index. destruct (m !! k) as [v|] eqn:Hk; simpl; [|reflexivity].
  now rewrite insert_id.
Qed.

Lemma map_index_Some {V : Type} (dflt : V) (k : Z) (m : gmap Z V) (v : V) :
  m !! k = Some v -> map_index dflt k m = (v, m).
Proof. unfold map_index. now intros ->. Qed.

(** ** What each operation does to the two maps *)

Lemma showMenu_Ret w u w' :
  showMenu w = Ret u w' -> same_state w w' /\ cerr w' = cerr w /\ cin w' = cin w.
Proof. unfold showMenu. intros H. inversion H; subst. now repeat split. Qed.

Lemma placeOrder_items_Ret n i acc w l w' :
  placeOrder_items n i acc w = Ret l w' ->
  same_state w w' /\ cerr w' = cerr w /\
  exists new_items, l = acc ++ new_items /\ length new_items = n.
Proof.
  revert i acc w. induction n as [|n IH]; simpl; intros i acc w H.
  - inversion H; subst. repeat split. exists []. now rewrite app_nil_r.
  - apply bind_inv in H as (choice & w1 & Hc & H).
    apply checkNum_Ret in Hc as (_ & Hs & He).
    destruct (static_cast_Entrees (choice - 1)) as [e|]; [|discriminate].
    apply IH in H as (Hs' & He' & new_items & -> & Hlen).
    split; [eapply same_state_trans; eassumption|].
    split; [congruence|].
    exists (e :: new_items). rewrite <- app_assoc. simpl. now rewrite Hlen.
Qed.

Lemma placeOrder_Ret w u w' :
  placeOrder w = Ret u w' ->
  placed w w' /\ files w' = files w /\ rand_calls w' = rand_calls w /\
  rand_seq w' = rand_seq w /\ cerr w' = cerr w.
Proof.
  unfold placeOrder. intros H.
  apply bind_inv in H as (tableId & w1 & Hc & H).
  apply checkNum_Ret in Hc as (Hrange & (Ht1 & Ho1 & Hf1 & Hr1 & Hq1) & He1).
  apply bind_inv in H as (table & w2 & Ht & H).
  unfold tables_index in Ht. rewrite map_index_insert in Ht.
  inversion Ht; subst table w2; clear Ht.
  rewrite Ht1 in H.
  fold (table_at w tableId) in H. fold (availableSeats_at w tableId) in H.
  destruct (availableSeats_at w tableId <=? 0) eqn:Hfull.
  - inversion H; subst w'; simpl.
    split; [|now repeat split].
    eapply placed_full; [exact Hrange | lia | reflexivity | exact Ho1].
  - apply bind_inv in H as (u1 & w3 & Hmsg & H).
    assert (tables w3 = <[tableId := table_at w tableId]> (tables w) /\
            orders w3 = orders w /\ files w3 = files w /\
            rand_calls w3 = rand_calls w /\ rand_seq w3 = rand_seq w /\
            cerr w3 = cerr w) as (Ht3 & Ho3 & Hf3 & Hr3 & Hq3 & He3).
    { unfold placeOrder_notice in Hmsg.
      destruct (availableSeats_at w tableId <=? 2);
        inversion Hmsg; subst w3; simpl; now repeat split. }
    clear Hmsg.
    apply bind_inv in H as (guests & w4 & Hg & H).
    apply checkNum_Ret in Hg as (Hguests & (Ht4 & Ho4 & Hf4 & Hr4 & Hq4) & He4).
    apply bind_inv in H as (u2 & w5 & Hseat & H).
    inversion Hseat; subst w5 u2; clear Hseat.
    apply bind_inv in H as (u3 & w6 & Hmenu & H).
    apply showMenu_Ret in Hmenu as ((Ht6 & Ho6 & Hf6 & Hr6 & Hq6) & He6 & _).
    apply bind_inv in H as (new_items & w7 & Hitems & H).
    apply placeOrder_items_Ret in Hitems
      as ((Ht7 & Ho7 & Hf7 & Hr7 & Hq7) & He7 & l & Hl & Hlen).
    simpl in Hl; subst l.
    apply bind_inv in H as (order & w8 & Hord & H).
    unfold orders_index in Hord. rewrite map_index_insert in Hord.
    inversion Hord; subst order w8; clear Hord.
    apply bind_inv in H as (u4 & w9 & Hins & H).
    inversion Hins; subst w9 u4; clear Hins.
    inversion H; subst w'; clear H. simpl in *.
    assert (orders w7 = orders w) as Ho by congruence.
    assert (tables w7 = <[tableId := mkTable (capacity (table_at w tableId))
              (int_add (seatedGuests (table_at w tableId)) guests)]> (tables w)) as Htb.
    { rewrite Ht7, Ht6, Ht4, Ht3. now rewrite alter_insert_eq. }
    split; [|repeat split; congruence].
    eapply placed_seated with (guests := guests) (new_items := new_items);
      [exact Hrange | exact Hguests | exact Hlen | exact Htb |].
    wsimpl. rewrite Ho. unfold order_at. now rewrite insert_insert_eq.
Qed.

Lemma checkTableStatus_Ret w :
  checkTableStatus w =
  Ret tt (add_cout (flat_map (checkTableStatus_line w) (seqZ 1 TABLE_QTY)) w).
Proof. reflexivity. Qed.

(** [checkOrderAndTableStatus] answers [-1] when nothing is pending and a
    table number of the range otherwise; it touches the console only. *)
Lemma checkOrderAndTableStatus_Ret promptMessage w tableId w1 :
  checkOrderAndTableStatus promptMessage w = Ret tableId w1 ->
  same_state w w1 /\ cerr w1 = cerr w /\
  ((allOrdersPaidAndComplete w = true /\ tableId = -1 /\
    w1 = add_cout
           [OStr ("No pending orders / all have been completed and paid." +:+ nl)] w)
   \/ (allOrdersPaidAndComplete w = false /\ 1 <= tableId <= TABLE_QTY)).
Proof.
  unfold checkOrderAndTableStatus.
  destruct (allOrdersPaidAndComplete w); simpl; intros H.
  - inversion H; subst. split; [auto with rms|]. split; [reflexivity|]. now left.
  - apply bind_inv in H as (u & w0 & Hs & H).
    rewrite checkTableStatus_Ret in Hs. inversion Hs; subst w0 u; clear Hs.
    apply checkNum_Ret in H as (Hr & Hs & He).
    split; [|split; [exact He | now right]].
    eapply same_state_trans; [|exact Hs]. auto with rms.
Qed.

Lemma completeOrder_Ret w u w' :
  completeOrder w = Ret u w' -> same_state w w' \/ completed w w'.
Proof.
  unfold completeOrder. intros H.
  apply bind_inv in H as (tableId & w1 & Hc & H).
  apply checkOrderAndTableStatus_Ret in Hc as (Hs & He & Hcase).
  destruct (tableId =? -1) eqn:Hm.
  { inversion H; subst. now left. }
  destruct Hcase as [(_ & -> & _)|(_ & Hrange)]; [discriminate|].
  destruct (orders_count tableId w1) eqn:Hcount; simpl in H.
  - apply orders_count_spec in Hcount as [o Ho].
    apply bind_inv in H as (order & w2 & Hord & H).
    unfold orders_index in Hord. rewrite (map_index_Some _ _ _ o Ho) in Hord.
    inversion Hord; subst order w2; clear Hord.
    apply bind_inv in H as (u1 & w3 & Hins & H).
    inversion Hins; subst w3 u1; clear Hins.
    inversion H; subst w'; clear H.
    destruct Hs as (Ht1 & Ho1 & Hf1 & Hr1 & Hq1).
    right. eapply completed_intro with (tableId := tableId) (o := o);
      wsimpl; congruence.
  - inversion H; subst w'. left.
    eapply same_state_trans; [exact Hs | auto with rms].
Qed.

Lemma payForOrder_Ret w u w' :
  payForOrder w = Ret u w' -> same_state w w' \/ paid w w'.
Proof.
  unfold payForOrder. intros H.
  apply bind_inv in H as (tableId & w1 & Hc & H).
  apply checkOrderAndTableStatus_Ret in Hc as (Hs & He & Hcase).
  destruct (tableId =? -1) eqn:Hm.
  { inversion H; subst. now left. }
  destruct Hcase as [(_ & -> & _)|(_ & Hrange)]; [discriminate|].
  destruct (orders_count tableId w1) eqn:Hcount; simpl in H.
  2:{ inversion H; subst w'. left.
      eapply same_state_trans; [exact Hs | auto with rms]. }
  apply orders_count_spec in Hcount as [o Ho].
  apply bind_inv in H as (order & w2 & Hord & H).
  unfold orders_index in Hord. rewrite (map_index_Some _ _ _ o Ho) in Hord.
  inversion Hord; subst order w2; clear Hord.
  assert (same_state w (set_orders (fun _ => orders w1) w1)) as Hs2.
  { destruct Hs as (? & ? & ? & ? & ?). now repeat split. }
  destruct (isCompleted o) eqn:Hdone; simpl in H.
  2:{ inversion H; subst w'. left.
      eapply same_state_trans; [exact Hs2|]. now repeat split. }
  apply bind_inv in H as (u1 & w3 & Hb & H).
  inversion Hb; subst w3 u1; clear Hb.
  apply bind_inv in H as (u2 & w4 & Hp & H).
  inversion Hp; subst w4 u2; clear Hp.
  apply bind_inv in H as (confirm & w5 & Hch & H).
  unfold cin_char in Hch.
  destruct (read_char _) as [[c|] rest]; [|discriminate].
  inversion Hch; subst w5 confirm; clear Hch.
  destruct (Ascii.eqb (tolower c) "y").
  2:{ inversion H; subst w'. left.
      eapply same_state_trans; [exact Hs2|]. now repeat split. }
  apply bind_inv in H as (u3 & w6 & Hmark & H).
  inversion Hmark; subst w6 u3; clear Hmark.
  apply bind_inv in H as (table & w7 & Htab & H).
  unfold tables_index in Htab. rewrite map_index_insert in Htab.
  inversion Htab; subst table w7; clear Htab.
  apply bind_inv in H as (u4 & w8 & Hreset & H).
  inversion Hreset; subst w8 u4; clear Hreset.
  apply bind_inv in H as (r & w9 & Hrand & H).
  inversion Hrand; subst w9 r; clear Hrand.
  apply bind_inv in H as (u5 & w10 & Hfile & H).
  inversion Hfile; subst w10 u5; clear Hfile.
  inversion H; subst w'; clear H.
  destruct Hs as (Ht1 & Ho1 & Hf1 & Hr1 & Hq1).
  right. eapply paid_intro with (tableId := tableId) (o := o).
  all: wsimpl; rewrite ?Hdone; try congruence.
  unfold table_at. rewrite insert_insert_eq. congruence.
Qed.

Lemma placed_same w0 w w' :
  same_state w0 w -> placed w w' -> placed w0 w'.
Proof.
  intros (Ht & Ho & _) H.
  destruct H as [tableId Hr Ha Htb Hob | tableId guests new_items Hr Hg Hl Htb Hob];
    unfold availableSeats_at, table_at, order_at in *; rewrite ?Ht, ?Ho in *.
  - now apply placed_full with (tableId := tableId).
  - now apply placed_seated with (tableId := tableId) (guests := guests)
                                 (new_items := new_items).
Qed.

Lemma completed_same w0 w w' :
  same_state w0 w -> completed w w' -> completed w0 w'.
Proof.
  intros (Ht & Ho & Hf & Hr & Hq) [tableId o Hrange Hlook Hob Htb Hfb Hrb Hqb].
  apply completed_intro with (tableId := tableId) (o := o); congruence.
Qed.

Lemma paid_same w0 w w' :
  same_state w0 w -> paid w w' -> paid w0 w'.
Proof.
  intros (Ht & Ho & Hf & Hr & Hq) [tableId o Hrange Hlook Hdone Hob Htb Hfb Hrb Hqb].
  apply paid_intro with (tableId := tableId) (o := o);
    unfold table_at in *; congruence.
Qed.

Lemma showMenuOptions_Ret w u w' :
  showMenuOptions w = Ret u w' ->
  same_state w w' /\ cerr w' = cerr w /\ cin w' = cin w.
Proof.
  unfold showMenuOptions.
  destruct (negb (orders_empty w) && negb (allOrdersPaidAndComplete w));
    destruct (negb (orders_empty w) && allOrdersPaidAndComplete w);
    intros H; inversion H; subst; now repeat split.
Qed.

Lemma placeOrder_transition w u w' : placeOrder w = Ret u w' -> transition w w'.
Proof.
  intros H. apply placeOrder_Ret in H as (Hp & Hf & Hr & Hq & _).
  now apply transition_placed.
Qed.

Lemma completeOrder_transition w u w' : completeOrder w = Ret u w' -> transition w w'.
Proof.
  intros H. apply completeOrder_Ret in H as [H|H];
    [now apply transition_console | now apply transition_completed].
Qed.

Lemma payForOrder_transition w u w' : payForOrder w = Ret u w' -> transition w w'.
Proof.
  intros H. apply payForOrder_Ret in H as [H|H];
    [now apply transition_console | now apply transition_paid].
Qed.

Lemma transition_same w0 w w' :
  same_state w0 w -> transition w w' -> transition w0 w'.
Proof.
  intros Hs [H | H Hf Hr Hq | H | H].
  - apply transition_console. eapply same_state_trans; eassumption.
  - destruct Hs as (? & ? & ? & ? & ?).
    apply transition_placed; try congruence.
    eapply placed_same; [|exact H]. now repeat split.
  - apply transition_completed. eapply completed_same; eassumption.
  - apply transition_paid. eapply paid_same; eassumption.
Qed.

Lemma main_iter_choice w b w' :
  main_iter w = Ret b w' ->
  exists choice w1,
    (showMenuOptions;; checkNum 1 4 choice_prompt) w = Ret choice w1 /\
    1 <= choice <= 4 /\ same_state w w1.
Proof.
  unfold main_iter. intros H.
  apply bind_inv in H as (u & w0 & Hm & H).
  apply bind_inv in H as (choice & w1 & Hc & H).
  exists choice, w1. split.
  - rewrite (bind_Ret _ _ _ _ _ Hm). exact Hc.
  - apply showMenuOptions_Ret in Hm as (Hs0 & _).
    apply checkNum_Ret in Hc as (Hr & Hs1 & _).
    split; [exact Hr | eapply same_state_trans; eassumption].
Qed.

Lemma main_iter_transition w b w' : main_iter w = Ret b w' -> transition w w'.
Proof.
  unfold main_iter. intros H.
  apply bind_inv in H as (u & w0 & Hm & H).
  apply showMenuOptions_Ret in Hm as (Hs0 & _).
  apply bind_inv in H as (choice & w1 & Hc & H).
  apply checkNum_Ret in Hc as (Hr & Hs1 & _).
  assert (same_state w w1) as Hs by (eapply same_state_trans; eassumption).
  apply (transition_same _ w1); [exact Hs|]. clear Hs Hs0 Hs1 w0 u.
  assert (choice = 1 \/ choice = 2 \/ choice = 3 \/ choice = 4) as Hch by lia.
  destruct Hch as [-> | [-> | [-> | ->]]].
  - apply bind_inv in H as (u & w2 & Hp & H). inversion H; subst.
    eapply placeOrder_transition; eassumption.
  - destruct (negb (orders_empty w1) && negb (allOrdersPaidAndComplete w1)).
    + apply bind_inv in H as (u & w2 & Hp & H). inversion H; subst.
      eapply completeOrder_transition; eassumption.
    + inversion H; subst. apply transition_console. auto with rms.
  - destruct (negb (orders_empty w1) && negb (allOrdersPaidAndComplete w1)).
    + apply bind_inv in H as (u & w2 & Hp & H). inversion H; subst.
      eapply payForOrder_transition; eassumption.
    + inversion H; subst. apply transition_console. auto with rms.
  - destruct (negb (orders_empty w1) && allOrdersPaidAndComplete w1);
      inversion H; subst; apply transition_console; auto with rms.
Qed.

(** ** The two invariants in the reachable worlds *)

Lemma wrap_int_small z : INT_MIN <= z <= INT_MAX -> wrap_int z = z.
Proof.
  unfold INT_MIN, INT_MAX, wrap_int. intros H.
  rewrite Z.mod_small; lia.
Qed.

Lemma table_at_ok w tableId :
  seats_ok w ->
  capacity (table_at w tableId) = TABLE_CAPACITY /\
  0 <= seatedGuests (table_at w tableId) <= TABLE_CAPACITY.
Proof.
  intros Hok. unfold table_at.
  destruct (tables w !! tableId) as [t|] eqn:Ht; simpl.
  - destruct (Hok _ _ Ht) as [Hc Hs]. rewrite Hc in Hs. now split.
  - unfold TABLE_CAPACITY. split; [reflexivity | lia].
Qed.

Lemma availableSeats_at_ok w tableId :
  seats_ok w ->
  availableSeats_at w tableId =
  TABLE_CAPACITY - seatedGuests (table_at w tableId).
Proof.
  intros Hok. destruct (table_at_ok w tableId Hok) as [_ Hs].
  unfold availableSeats_at, int_sub. apply wrap_int_small.
  unfold TABLE_CAPACITY, INT_MIN, INT_MAX in *. lia.
Qed.

Lemma seats_ok_insert w w' tableId t :
  seats_ok w -> tables w' = <[tableId := t]> (tables w) ->
  capacity t = TABLE_CAPACITY -> 0 <= seatedGuests t <= TABLE_CAPACITY ->
  seats_ok w'.
Proof.
  intros Hok Htb Hc Hs id t' Hl. rewrite Htb in Hl.
  destruct (decide (tableId = id)) as [->|Hne].
  - rewrite lookup_insert_eq in Hl. inversion Hl; subst t'.
    rewrite Hc. now split.
  - rewrite lookup_insert_ne in Hl by exact Hne. eauto.
Qed.

Lemma transition_seats_ok w w' : transition w w' -> seats_ok w -> seats_ok w'.
Proof.
  intros Htr Hok. destruct Htr as [Hs | Hp _ _ _ | Hc | Hp].
  - destruct Hs as (Ht & _). intros id t. rewrite Ht. apply Hok.
  - destruct (Hp) as [tableId _ _ Htb _ | tableId guests new_items _ Hg _ Htb _];
      destruct (table_at_ok w tableId Hok) as [Hcap Hseat].
    + eapply seats_ok_insert; eauto.
    + rewrite (availableSeats_at_ok _ _ Hok) in Hg.
      eapply seats_ok_insert; [exact Hok | exact Htb | exact Hcap |].
      simpl. unfold int_add. rewrite wrap_int_small;
        unfold TABLE_CAPACITY, INT_MIN, INT_MAX in *; lia.
  - destruct Hc as [tableId o _ _ _ Htb _ _ _].
    intros id t. rewrite Htb. apply Hok.
  - destruct Hp as [tableId o _ _ _ _ Htb _ _ _].
    destruct (table_at_ok w tableId Hok) as [Hcap Hseat].
    eapply seats_ok_insert; [exact Hok | exact Htb | exact Hcap |].
    simpl. unfold TABLE_CAPACITY. lia.
Qed.

Lemma paid_ok_insert w w' tableId o :
  paid_ok w -> orders w' = <[tableId := o]> (orders w) ->
  (isPaid o = true -> isCompleted o = true) -> paid_ok w'.
Proof.
  intros Hok Hob Ho id o' Hl. rewrite Hob in Hl.
  destruct (decide (tableId = id)) as [->|Hne].
  - rewrite lookup_insert_eq in Hl. now inversion Hl; subst o'.
  - rewrite lookup_insert_ne in Hl by exact Hne. eauto.
Qed.

Lemma transition_paid_ok w w' : transition w w' -> paid_ok w -> paid_ok w'.
Proof.
  intros Htr Hok. destruct Htr as [Hs | Hp _ _ _ | Hc | Hp].
  - destruct Hs as (_ & Ho & _). intros id o. rewrite Ho. apply Hok.
  - destruct Hp as [tableId _ _ _ Hob | tableId guests new_items _ _ _ _ Hob].
    + intros id o. rewrite Hob. apply Hok.
    + eapply paid_ok_insert; [exact Hok | exact Hob |]. simpl.
      unfold order_at. destruct (orders w !! tableId) as [o|] eqn:Ho; simpl.
      * eauto.
      * discriminate.
  - destruct Hc as [tableId o _ _ Hob _ _ _ _].
    eapply paid_ok_insert; [exact Hok | exact Hob | reflexivity].
  - destruct Hp as [tableId o _ _ Hdone Hob _ _ _ _].
    eapply paid_ok_insert; [exact Hok | exact Hob | now simpl].
Qed.

Lemma initializeTables_Ret w :
  initializeTables w =
  Ret tt (set_tables (fun m =>
    <[4 := Table_default]> (<[3 := Table_default]>
      (<[2 := Table_default]> (<[1 := Table_default]> m)))) w).
Proof. reflexivity. Qed.

Lemma reachable_invariants w : reachable w -> seats_ok w /\ paid_ok w.
Proof.
  induction 1 as [input rs w H | w w' b _ [IH1 IH2] H | w w' _ [IH1 IH2] H
                 | w w' _ [IH1 IH2] H | w w' _ [IH1 IH2] H | w s _ [IH1 IH2]].
  - rewrite initializeTables_Ret in H. inversion H; subst w. split.
    + intros id t Hl. unfold init_world in Hl. wsimpl.
      repeat (apply lookup_insert_Some in Hl as [[_ <-]|[_ Hl]];
              [unfold Table_default, TABLE_CAPACITY; simpl; split; [reflexivity|lia]|]).
      rewrite lookup_empty in Hl. discriminate.
    + intros id o Hl. unfold init_world in Hl. wsimpl.
      rewrite lookup_empty in Hl. discriminate.
  - apply main_iter_transition in H.
    split; [eapply transition_seats_ok | eapply transition_paid_ok]; eassumption.
  - apply placeOrder_transition in H.
    split; [eapply transition_seats_ok | eapply transition_paid_ok]; eassumption.
  - apply completeOrder_transition in H.
    split; [eapply transition_seats_ok | eapply transition_paid_ok]; eassumption.
  - apply payForOrder_transition in H.
    split; [eapply transition_seats_ok | eapply transition_paid_ok]; eassumption.
  - split; [exact IH1 | exact IH2].
Qed.

(** ** payForOrder, forwards *)

Lemma set_orders_id w : set_orders (fun _ => orders w) w = w.
Proof. now destruct w. Qed.

Lemma World_eq w w' :
  tables w = tables w' -> orders w = orders w' -> cin w = cin w' ->
  cout w = cout w' -> cerr w = cerr w' -> files w = files w' ->
  rand_seq w = rand_seq w' -> rand_calls w = rand_calls w' -> w = w'.
Proof. destruct w, w'; simpl; intros; subst; reflexivity. Qed.

Lemma tolower_y (c : ascii) :
  Ascii.eqb (tolower c) "y" = true <-> c = "y"%char \/ c = "Y"%char.
Proof.
  destruct c as [[] [] [] [] [] [] [] []]; vm_compute;
    (split; [intros H; try discriminate H; auto | intros [H|H]; try discriminate H; auto]).
Qed.

Lemma pay_prompt_same w tableId w1 :
  pay_prompt w tableId w1 ->
  same_state w w1 /\ cerr w1 = cerr w /\ 1 <= tableId <= TABLE_QTY /\
  allOrdersPaidAndComplete w = false.
Proof.
  intros [H Hne]. apply checkOrderAndTableStatus_Ret in H as (Hs & He & Hcase).
  destruct Hcase as [(_ & -> & _)|(Ha & Hr)]; [congruence | auto].
Qed.

Lemma payForOrder_not_completed w tableId w1 order :
  checkOrderAndTableStatus "Enter table number to pay: " w = Ret tableId w1 ->
  orders w !! tableId = Some order ->
  isCompleted order = false ->
  payForOrder w =
  Ret tt (add_cerr [OStr ("Please complete the order before payment." +:+ nl); OEndl]
            (add_cerr [OStr "Order for Table "; OInt tableId;
                       OStr " is not completed yet!"; OEndl] w1)).
Proof.
  intros Hc Ho Hdone.
  assert (~ settled order) as Hn by (unfold settled; rewrite Hdone; intuition discriminate).
  pose proof (allOrdersPaidAndComplete_false _ _ _ Ho Hn) as Hall.
  pose proof Hc as Hc'.
  apply checkOrderAndTableStatus_Ret in Hc' as ((_ & Ho1 & _) & _ & Hcase).
  destruct Hcase as [(Ha & _)|(_ & Hr)]; [congruence|].
  unfold payForOrder. rewrite (bind_Ret _ _ _ _ _ Hc).
  assert ((tableId =? -1) = false) as -> by lia.
  rewrite <- Ho1 in Ho.
  assert (orders_count tableId w1 = true) as ->
    by (apply orders_count_spec; eauto).
  simpl. unfold mbind, M_bind, orders_index.
  rewrite (map_index_Some _ _ _ _ Ho), set_orders_id, Hdone. reflexivity.
Qed.

Lemma payForOrder_cancelled w tableId w1 order c rest :
  pay_prompt w tableId w1 ->
  orders w !! tableId = Some order ->
  isCompleted order = true ->
  read_char (cin w1) = (Some c, rest) ->
  c <> ("y"%char) -> c <> ("Y"%char) ->
  payForOrder w = Ret tt (cancelled_world order rest w1).
Proof.
  intros Hp Ho Hdone Hread Hy HY.
  destruct (pay_prompt_same _ _ _ Hp) as ((_ & Ho1 & _) & _ & Hr & _).
  destruct Hp as [Hc Hne].
  unfold payForOrder. rewrite (bind_Ret _ _ _ _ _ Hc).
  assert ((tableId =? -1) = false) as -> by lia.
  rewrite <- Ho1 in Ho.
  assert (orders_count tableId w1 = true) as ->
    by (apply orders_count_spec; eauto).
  simpl. unfold mbind, M_bind, orders_index.
  rewrite (map_index_Some _ _ _ _ Ho), set_orders_id, Hdone. simpl.
  unfold cin_char. simpl. rewrite Hread.
  assert (Ascii.eqb (tolower c) "y" = false) as ->.
  { destruct (Ascii.eqb (tolower c) "y") eqn:E; [|reflexivity].
    apply tolower_y in E as [E|E]; congruence. }
  unfold cout_put, cancelled_world. f_equal.
  apply World_eq; wsimpl; try reflexivity.
  now rewrite <- !app_assoc.
Qed.

Lemma payForOrder_confirmed w tableId w1 order c rest :
  pay_prompt w tableId w1 ->
  orders w !! tableId = Some order ->
  isCompleted order = true ->
  read_char (cin w1) = (Some c, rest) ->
  c = ("y"%char) \/ c = ("Y"%char) ->
  payForOrder w = Ret tt (paid_world tableId order rest w1).
Proof.
  intros Hp Ho Hdone Hread Hy.
  destruct (pay_prompt_same _ _ _ Hp) as ((_ & Ho1 & _) & _ & Hr & _).
  destruct Hp as [Hc Hne].
  unfold payForOrder. rewrite (bind_Ret _ _ _ _ _ Hc).
  assert ((tableId =? -1) = false) as -> by lia.
  rewrite <- Ho1 in Ho.
  assert (orders_count tableId w1 = true) as ->
    by (apply orders_count_spec; eauto).
  simpl. unfold mbind, M_bind, orders_index.
  rewrite (map_index_Some _ _ _ _ Ho), set_orders_id, Hdone. simpl.
  unfold cin_char. simpl. rewrite Hread.
  apply tolower_y in Hy. rewrite Hy.
  unfold tables_index. rewrite map_index_insert.
  unfold cout_put, rand, paid_world, table_at. f_equal.
  apply World_eq; wsimpl; try reflexivity.
  - now rewrite insert_insert_eq.
  - now rewrite Hdone.
  - now rewrite <- !app_assoc.
Qed.

(** With every order settled, [payForOrder] asks nothing and changes
    nothing. *)
Lemma payForOrder_nothing_pending w :
  allOrdersPaidAndComplete w = true ->
  payForOrder w =
  Ret tt (add_cout
            [OStr ("No pending orders / all have been completed and paid." +:+ nl)] w).
Proof.
  intros Ha. unfold payForOrder, checkOrderAndTableStatus, mbind, M_bind.
  rewrite Ha. reflexivity.
Qed.

(** ** placeOrder, forwards *)

Ltac mstep H := rewrite (bind_Ret _ _ _ _ _ H); cbv beta.

Lemma tables_index_Ret tableId w :
  tables_index tableId w =
  Ret (table_at w tableId)
      (set_tables (fun _ => <[tableId := table_at w tableId]> (tables w)) w).
Proof. unfold tables_index. now rewrite map_index_insert. Qed.

Lemma orders_index_Ret tableId w :
  orders_index tableId w =
  Ret (order_at w tableId)
      (set_orders (fun _ => <[tableId := order_at w tableId]> (orders w)) w).
Proof. unfold orders_index. now rewrite map_index_insert. Qed.

Lemma placeOrder_notice_Ret a w u w' :
  placeOrder_notice a w = Ret u w' ->
  same_state w w' /\ cerr w' = cerr w /\ cin w' = cin w.
Proof.
  unfold placeOrder_notice. destruct (a <=? 2); intros H; inversion H; subst;
    now repeat split.
Qed.

(** A full table: [placeOrder] says so and returns. *)
Lemma placeOrder_full w tableId w1 :
  checkNum 1 TABLE_QTY table_prompt w = Ret tableId w1 ->
  availableSeats_at w tableId <= 0 ->
  placeOrder w =
  Ret tt (add_cout [OStr "Sorry! Table "; OInt tableId; OStr (" is full." +:+ nl)]
            (set_tables (fun _ => <[tableId := table_at w tableId]> (tables w)) w1)).
Proof.
  intros H1 Hfull. unfold placeOrder. fold table_prompt. mstep H1.
  apply checkNum_Ret in H1 as (_ & (Ht & _) & _).
  unfold mbind, M_bind. rewrite tables_index_Ret.
  unfold table_at, availableSeats_at, table_at in *. rewrite Ht.
  assert ((int_sub TABLE_CAPACITY
             (seatedGuests (default Table_default (tables w !! tableId))) <=? 0) = true)
    as -> by lia.
  reflexivity.
Qed.

(** A table with seats left, a guest count and as many menu choices:
    [placeOrder] seats the guests and appends the choices to the order. *)
Lemma placeOrder_seated w tableId w1 guests w3 new_items w5 :
  checkNum 1 TABLE_QTY table_prompt w = Ret tableId w1 ->
  0 < availableSeats_at w tableId ->
  (tables_index tableId;;
   placeOrder_notice (availableSeats_at w tableId);;
   checkNum 1 (availableSeats_at w tableId) guests_prompt) w1 = Ret guests w3 ->
  (showMenu;; placeOrder_items (Z.to_nat guests) 0 [])
    (set_tables (alter (fun t => mkTable (capacity t)
                                   (int_add (seatedGuests t) guests)) tableId) w3)
    = Ret new_items w5 ->
  exists w',
    placeOrder w = Ret tt w' /\
    1 <= guests <= availableSeats_at w tableId /\
    length new_items = Z.to_nat guests /\
    tables w' = <[tableId := mkTable (capacity (table_at w tableId))
                    (int_add (seatedGuests (table_at w tableId)) guests)]> (tables w) /\
    orders w' = <[tableId := mkOrder (items (order_at w tableId) ++ new_items)
                    (isCompleted (order_at w tableId))
                    (isPaid (order_at w tableId))]> (orders w) /\
    files w' = files w /\
    cout w' = cout w5 ++ [OStr "Order placed for table "; OInt tableId;
                          OStr (" successfully." +:+ nl)].
Proof.
  intros H1 Havail H2 H3.
  pose proof H1 as H1'. apply checkNum_Ret in H1' as (_ & (Ht1 & Ho1 & Hf1 & _) & _).
  assert (table_at w1 tableId = table_at w tableId) as Hta
    by (unfold table_at; now rewrite Ht1).
  apply bind_inv in H2 as (table & wa & Hidx & H2).
  rewrite tables_index_Ret, Hta in Hidx. inversion Hidx; subst table wa; clear Hidx.
  apply bind_inv in H2 as (u & wb & Hnote & Hguests).
  apply bind_inv in H3 as (u' & wc & Hmenu & Hitems).
  eexists. split.
  - unfold placeOrder. fold table_prompt guests_prompt. mstep H1.
    rewrite (bind_Ret _ _ _ _ _ (tables_index_Ret tableId w1)). cbv beta.
    rewrite Hta. fold (availableSeats_at w tableId). cbv zeta.
    assert ((availableSeats_at w tableId <=? 0) = false) as -> by lia.
    mstep Hnote. mstep Hguests.
    unfold mbind at 1. unfold M_bind at 1.
    mstep Hmenu. mstep Hitems.
    rewrite (bind_Ret _ _ _ _ _ (orders_index_Ret tableId w5)). cbv beta.
    unfold mbind, M_bind. reflexivity.
  - apply placeOrder_notice_Ret in Hnote as ((Htb & Hob & Hfb & _) & _).
    pose proof Hguests as Hg.
    apply checkNum_Ret in Hg as (Hrange & (Ht3 & Ho3 & Hf3 & _) & _).
    apply showMenu_Ret in Hmenu as ((Htc & Hoc & Hfc & _) & _).
    apply placeOrder_items_Ret in Hitems
      as ((Ht5 & Ho5 & Hf5 & _) & _ & l & Hl & Hlen).
    simpl in Hl; subst l. wsimpl.
    split; [exact Hrange|]. split; [exact Hlen|].
    assert (orders w5 = orders w) as Ho by congruence.
    repeat split.
    + rewrite Ht5, Htc, Ht3, Htb, Ht1. now rewrite alter_insert_eq.
    + unfold order_at. rewrite Ho. now rewrite insert_insert_eq.
    + congruence.
Qed.

(** ** The main loop and its fuel

    Every operation only consumes standard input, and a round of the main
    loop that returns has read its menu choice.  So the fuel of [main], one
    more than the length of the input, is never what stops the loop. *)

Lemma reads_ret {A : Type} (a : A) : reads (mret a : M A).
Proof. intros w a' w' H. inversion H; subst. lia. Qed.

Lemma reads_bind {A B : Type} (c : M A) (k : A -> M B) :
  reads c -> (forall a, reads (k a)) -> reads (c ≫= k).
Proof.
  intros Hc Hk w b w' H. apply bind_inv in H as (a & w1 & H1 & H2).
  apply Hc in H1. apply Hk in H2. lia.
Qed.

Lemma reads_some_bind {A B : Type} (c : M A) (k : A -> M B) :
  reads_some c -> (forall a, reads (k a)) -> reads_some (c ≫= k).
Proof.
  intros Hc Hk w b w' H. apply bind_inv in H as (a & w1 & H1 & H2).
  apply Hc in H1. apply Hk in H2. lia.
Qed.

Lemma reads_some_reads {A : Type} (c : M A) : reads_some c -> reads c.
Proof. intros Hc w a w' H. apply Hc in H. lia. Qed.

Lemma reads_update {A : Type} (a : A) (f : World -> World) :
  (forall w, cin (f w) = cin w) -> reads (fun w => Ret a (f w)).
Proof. intros Hf w a' w' H. inversion H; subst. rewrite Hf. lia. Qed.

Lemma reads_cond {A : Type} (p : World -> bool) (c1 c2 : M A) :
  reads c1 -> reads c2 -> reads (fun w => if p w then c1 w else c2 w).
Proof. intros H1 H2 w a w' H. destruct (p w); eauto. Qed.

Lemma reads_cout_put l : reads (cout_put l).
Proof. now apply reads_update. Qed.

Lemma reads_cerr_put l : reads (cerr_put l).
Proof. now apply reads_update. Qed.

Lemma reads_some_checkNum_loop fuel min max prompt :
  reads_some (checkNum_loop fuel min max prompt).
Proof.
  induction fuel as [|fuel IH]; intros w v w'; [discriminate|].
  rewrite checkNum_loop_step.
  destruct (read_int (cin w)) as [r rest] eqn:Hread.
  destruct (read_int_length _ _ _ Hread) as [Hle Hlt].
  pose proof (proj1 (ignore_line_length rest)) as Hig.
  assert (forall w2,
            checkNum_loop fuel min max prompt
              (add_cout [OStr ("Invalid input. Try again." +:+ nl)]
                 (set_cin (ignore_line rest) (add_cout [OStr prompt] w)))
              = Ret v w2 ->
            (String.length (cin w2) < String.length (cin w))%nat) as Hretry.
  { intros w2 H. apply IH in H. wsimpl. lia. }
  destruct r as [val|]; [|apply Hretry].
  destruct ((val <? min) || (max <? val)); [apply Hretry|].
  intros H. inversion H; subst. wsimpl. apply Hlt. discriminate.
Qed.

Lemma reads_some_checkNum min max prompt : reads_some (checkNum min max prompt).
Proof. intros w v w' H. eapply reads_some_checkNum_loop. exact H. Qed.

Lemma reads_checkNum min max prompt : reads (checkNum min max prompt).
Proof. apply reads_some_reads, reads_some_checkNum. Qed.

Lemma reads_cin_char : reads cin_char.
Proof.
  intros w c w'. unfold cin_char, read_char.
  pose proof (skipws_length (cin w)) as Hw.
  destruct (skipws (cin w)) as [|c0 r]; [discriminate|].
  intros H. inversion H; subst. wsimpl. simpl in Hw. lia.
Qed.

Lemma reads_tables_index tableId : reads (tables_index tableId).
Proof. intros w t w'. rewrite tables_index_Ret. intros H. inversion H; subst. wsimpl. lia. Qed.

Lemma reads_orders_index tableId : reads (orders_index tableId).
Proof. intros w t w'. rewrite orders_index_Ret. intros H. inversion H; subst. wsimpl. lia. Qed.

Lemma reads_rand : reads rand.
Proof. intros w r w' H. inversion H; subst. wsimpl. lia. Qed.

Lemma reads_showMenu : reads showMenu.
Proof. intros w u w' H. apply showMenu_Ret in H as (_ & _ & ->). lia. Qed.

Lemma reads_showMenuOptions : reads showMenuOptions.
Proof. intros w u w' H. apply showMenuOptions_Ret in H as (_ & _ & ->). lia. Qed.

Lemma reads_placeOrder_notice a : reads (placeOrder_notice a).
Proof. intros w u w' H. apply placeOrder_notice_Ret in H as (_ & _ & ->). lia. Qed.

Lemma reads_checkTableStatus : reads checkTableStatus.
Proof. intros w u w' H. inversion H; subst. wsimpl. lia. Qed.

#[local] Hint Resolve reads_ret reads_cout_put reads_cerr_put reads_checkNum
  reads_cin_char reads_tables_index reads_orders_index reads_rand reads_showMenu
  reads_showMenuOptions reads_placeOrder_notice reads_checkTableStatus : rms.

Ltac reads_tac :=
  repeat first
    [ apply reads_bind; [|intros ?]
    | apply reads_cond
    | apply reads_update; reflexivity
    | match goal with |- reads (if ?b then _ else _) => destruct b end
    | solve [auto with rms] ].

Lemma reads_placeOrder_items n i acc : reads (placeOrder_items n i acc).
Proof.
  revert i acc. induction n as [|n IH]; intros i acc; simpl; [auto with rms|].
  apply reads_bind; [auto with rms|]. intros choice.
  destruct (static_cast_Entrees (choice - 1)); [apply IH | discriminate].
Qed.

#[local] Hint Resolve reads_placeOrder_items : rms.

Lemma reads_placeOrder : reads placeOrder.
Proof. unfold placeOrder. reads_tac. Qed.

Lemma reads_checkOrderAndTableStatus promptMessage :
  reads (checkOrderAndTableStatus promptMessage).
Proof.
  unfold checkOrderAndTableStatus.
  apply (reads_cond (fun w => negb (allOrdersPaidAndComplete w))); reads_tac.
Qed.

#[local] Hint Resolve reads_checkOrderAndTableStatus : rms.

Lemma reads_completeOrder : reads completeOrder.
Proof.
  unfold completeOrder. apply reads_bind; [auto with rms|]. intros tableId.
  destruct (tableId =? -1); [auto with rms|].
  apply (reads_cond (fun w => negb (orders_count tableId w))); reads_tac.
Qed.

Lemma reads_payForOrder : reads payForOrder.
Proof.
  unfold payForOrder. apply reads_bind; [auto with rms|]. intros tableId.
  destruct (tableId =? -1); [auto with rms|].
  apply (reads_cond (fun w => negb (orders_count tableId w))); reads_tac.
Qed.

Lemma reads_some_main_iter : reads_some main_iter.
Proof.
  unfold main_iter. intros w b w' H.
  apply bind_inv in H as (u & w0 & Hm & H).
  apply reads_showMenuOptions in Hm.
  apply bind_inv in H as (choice & w1 & Hc & H).
  pose proof (reads_some_checkNum _ _ _ _ _ _ Hc) as Hlt.
  apply checkNum_Ret in Hc as (Hr & _).
  assert (String.length (cin w') <= String.length (cin w1))%nat; [|lia].
  assert (choice = 1 \/ choice = 2 \/ choice = 3 \/ choice = 4) as Hch by lia.
  revert H. generalize w1 b w'. change (reads (fun w1 : World =>
    match choice with
    | 1 => (placeOrder;; mret true) w1
    | 2 =>
        if negb (orders_empty w1) && negb (allOrdersPaidAndComplete w1)
        then (completeOrder;; mret true) w1
        else (cout_put [OStr ("No orders available to complete." +:+ nl)];;
              mret true) w1
    | 3 =>
        if negb (orders_empty w1) && negb (allOrdersPaidAndComplete w1)
        then (payForOrder;; mret true) w1
        else (cout_put [OStr ("No unpaid orders available." +:+ nl)];;
              mret true) w1
    | 4 =>
        if negb (orders_empty w1) && allOrdersPaidAndComplete w1
        then (cout_put [OStr ("Goodbye!" +:+ nl)];; mret false) w1
        else (cout_put [OStr ("Cannot close — orders still pending." +:+ nl)];;
              mret true) w1
    | _ => (cout_put [OStr ("Invalid option. Please try again." +:+ nl)];;
            mret true) w1
    end)).
  pose proof reads_placeOrder. pose proof reads_completeOrder.
  pose proof reads_payForOrder.
  destruct Hch as [-> | [-> | [-> | ->]]].
  - apply (reads_bind placeOrder); auto with rms.
  - apply (reads_cond (fun w1 =>
             negb (orders_empty w1) && negb (allOrdersPaidAndComplete w1)));
      apply reads_bind; auto with rms.
  - apply (reads_cond (fun w1 =>
             negb (orders_empty w1) && negb (allOrdersPaidAndComplete w1)));
      apply reads_bind; auto with rms.
  - apply (reads_cond (fun w1 =>
             negb (orders_empty w1) && allOrdersPaidAndComplete w1));
      apply reads_bind; auto with rms.
Qed.

(** Fuel beyond the length of the input does not change what the main loop
    does. *)
Lemma main_loop_fuel f1 f2 w :
  (String.length (cin w) < f1)%nat -> (String.length (cin w) < f2)%nat ->
  main_loop f1 w = main_loop f2 w.
Proof.
  revert f2 w. induction f1 as [|f1 IH]; intros f2 w H1 H2; [lia|].
  destruct f2 as [|f2]; [lia|]. simpl. unfold mbind, M_bind.
  destruct (main_iter w) as [inService w1| |] eqn:Hi; try reflexivity.
  apply reads_some_main_iter in Hi.
  destruct inService; [|reflexivity]. apply IH; lia.
Qed.

(** ** The concrete runs are reachable *)

Lemma main_rounds_reachable n w b w' :
  reachable w -> main_rounds n w = Ret b w' -> reachable w'.
Proof.
  revert w. induction n as [|n IH]; simpl; intros w Hr H.
  - inversion H; subst. exact Hr.
  - apply bind_inv in H as (inService & w1 & Hi & H).
    assert (reachable w1) as Hr1 by (eapply reachable_main_iter; eassumption).
    destruct inService; [eauto | inversion H; subst; exact Hr1].
Qed.

Lemma start_world_reachable input : reachable (start_world input).
Proof. eapply reachable_start. reflexivity. Qed.

Lemma repay_world_reachable : reachable repay_world.
Proof.
  apply (main_rounds_reachable 4 (start_world repay_input) true).
  - apply start_world_reachable.
  - vm_compute. reflexivity.
Qed.

Lemma reorder_world_reachable n : (n <= 6)%nat -> reachable (reorder_world n).
Proof.
  intros Hn.
  apply (main_rounds_reachable n (start_world reorder_input) true).
  - apply start_world_reachable.
  - do 7 (destruct n as [|n]; [vm_compute; reflexivity|]). lia.
Qed.

Lemma unfinished_world_reachable : reachable unfinished_world.
Proof.
  apply (main_rounds_reachable 1 (start_world unfinished_input) true).
  - apply start_world_reachable.
  - vm_compute. reflexivity.
Qed.

(** * The claims *)

(** ** Closing the restaurant *)

Lemma canClose_spec w :
  canClose w = true <->
  orders w <> ∅ /\ forall tableId o, orders w !! tableId = Some o -> settled o.
Proof.
  unfold canClose. rewrite andb_true_iff, negb_true_iff.
  rewrite allOrdersPaidAndComplete_spec.
  rewrite <- not_true_iff_false, orders_empty_spec. reflexivity.
Qed.

Lemma canClose_same w w' : orders w' = orders w -> canClose w' = canClose w.
Proof.
  intros Ho. unfold canClose, orders_empty, allOrdersPaidAndComplete.
  now rewrite Ho.
Qed.

Lemma main_iter_close w w1 :
  (showMenuOptions;; checkNum 1 4 choice_prompt) w = Ret 4 w1 ->
  main_iter w =
  if canClose w then Ret false (add_cout [OStr ("Goodbye!" +:+ nl)] w1)
  else Ret true (add_cout [OStr ("Cannot close — orders still pending." +:+ nl)] w1).
Proof.
  intros H. apply bind_inv in H as (u & w0 & Hm & Hc).
  unfold main_iter. fold choice_prompt. mstep Hm. mstep Hc.
  apply showMenuOptions_Ret in Hm as ((_ & Ho0 & _) & _).
  apply checkNum_Ret in Hc as (_ & (_ & Ho1 & _) & _).
  fold (canClose w1). rewrite (canClose_same w w1) by congruence.
  now destruct (canClose w).
Qed.

Lemma main_iter_stops w w' :
  main_iter w = Ret false w' ->
  exists w1, (showMenuOptions;; checkNum 1 4 choice_prompt) w = Ret 4 w1.
Proof.
  intros H. destruct (main_iter_choice _ _ _ H) as (choice & w1 & Hread & Hr & _).
  fold choice_prompt in Hread.
  assert (choice = 4) as ->; [|now exists w1].
  apply bind_inv in Hread as (u & w0 & Hm & Hc).
  unfold main_iter in H. fold choice_prompt in H.
  rewrite (bind_Ret _ _ _ _ _ Hm) in H. cbv beta in H.
  rewrite (bind_Ret _ _ _ _ _ Hc) in H. cbv beta in H.
  assert (choice = 1 \/ choice = 2 \/ choice = 3 \/ choice = 4) as Hch by lia.
  destruct Hch as [-> | [-> | [-> | ->]]]; [| | |reflexivity]; exfalso.
  - apply bind_inv in H as (? & ? & _ & H). inversion H.
  - destruct (negb (orders_empty w1) && negb (allOrdersPaidAndComplete w1));
      apply bind_inv in H as (? & ? & _ & H); inversion H.
  - destruct (negb (orders_empty w1) && negb (allOrdersPaidAndComplete w1));
      apply bind_inv in H as (? & ? & _ & H); inversion H.
Qed.

(** C1.  The restaurant can be closed exactly when at least one order exists
    and every order is completed and paid.  [canClose] is the guard of
    option 4: it holds iff the order book is not empty and every order in it
    is settled; it fails on an empty book and as soon as one order lacks
    [isCompleted && isPaid]; and a round of the main loop ends the service
    iff option 4 was chosen and the guard holds. *)
Theorem canClose_exactly (w : World) :
  (canClose w = true <->
     orders w <> ∅ /\
     forall tableId o, orders w !! tableId = Some o ->
       isCompleted o = true /\ isPaid o = true) /\
  (orders w = ∅ -> canClose w = false) /\
  (forall tableId o, orders w !! tableId = Some o ->
     isCompleted o && isPaid o = false -> canClose w = false) /\
  (forall w', main_iter w = Ret false w' <->
     exists w1, (showMenuOptions;; checkNum 1 4 choice_prompt) w = Ret 4 w1 /\
                canClose w = true /\
                w' = add_cout [OStr ("Goodbye!" +:+ nl)] w1).
Proof.
  split; [apply canClose_spec|]. split; [|split].
  - intros He. apply not_true_iff_false. rewrite canClose_spec. tauto.
  - intros tableId o Ho Hn. apply not_true_iff_false. rewrite canClose_spec.
    intros [_ Hall]. destruct (Hall _ _ Ho) as [H1 H2].
    rewrite H1, H2 in Hn. discriminate.
  - intros w'. split.
    + intros H. destruct (main_iter_stops _ _ H) as [w1 Hread].
      exists w1. split; [exact Hread|].
      rewrite (main_iter_close _ _ Hread) in H.
      destruct (canClose w); inversion H; subst. now split.
    + intros (w1 & Hread & Hc & ->).
      rewrite (main_iter_close _ _ Hread), Hc. reflexivity.
Qed.

(** ** Paying before completion *)

(** C2.  A payment attempt on a table whose order is not completed is
    refused: [payForOrder] returns after the "not completed yet" message on
    [cerr], without bill or prompt, with maps and files as they were; the
    order record is untouched, and in a world where paid orders are completed
    its [isPaid] flag was and stays [false]. *)
Theorem pay_before_complete_refused (w w1 : World) (tableId : Z) (order : Order) :
  checkOrderAndTableStatus "Enter table number to pay: " w = Ret tableId w1 ->
  orders w !! tableId = Some order ->
  isCompleted order = false ->
  exists w',
    payForOrder w = Ret tt w' /\
    cerr w' = cerr w ++
      [OStr "Order for Table "; OInt tableId; OStr " is not completed yet!"; OEndl;
       OStr ("Please complete the order before payment." +:+ nl); OEndl] /\
    cout w' = cout w1 /\
    same_state w w' /\
    orders w' !! tableId = Some order /\
    (paid_ok w -> isPaid order = false /\
       forall o', orders w' !! tableId = Some o' -> isPaid o' = false).
Proof.
  intros Hc Ho Hdone. eexists. split.
  - eapply payForOrder_not_completed; eassumption.
  - apply checkOrderAndTableStatus_Ret in Hc as (Hs & He & _).
    pose proof Hs as (Ht1 & Ho1 & Hf1 & Hr1 & Hq1). wsimpl.
    split; [now rewrite He, <- app_assoc|]. split; [reflexivity|].
    split; [exact Hs|]. split; [now rewrite Ho1|].
    intros Hok.
    assert (isPaid order = false) as Hp.
    { destruct (isPaid order) eqn:Hp; [|reflexivity].
      rewrite (Hok _ _ Ho Hp) in Hdone. discriminate. }
    split; [exact Hp|]. intros o'. rewrite Ho1, Ho. now intros [= <-].
Qed.

Lemma pay_before_complete_refused_witness :
  (exists w1,
     checkOrderAndTableStatus "Enter table number to pay: " unfinished_world
       = Ret 1 w1) /\
  orders unfinished_world !! 1 = Some (mkOrder [RAW_FISH; EGGS] false false) /\
  exists w',
    payForOrder unfinished_world = Ret tt w' /\
    cerr w' =
      [OStr "Order for Table "; OInt 1; OStr " is not completed yet!"; OEndl;
       OStr ("Please complete the order before payment." +:+ nl); OEndl] /\
    orders w' !! 1 = Some (mkOrder [RAW_FISH; EGGS] false false).
Proof.
  assert (checkOrderAndTableStatus "Enter table number to pay: " unfinished_world
          = Ret 1 (run (checkOrderAndTableStatus "Enter table number to pay: ")
                       unfinished_world)) as Hc by (vm_compute; reflexivity).
  assert (orders unfinished_world !! 1 = Some (mkOrder [RAW_FISH; EGGS] false false))
    as Ho by (vm_compute; reflexivity).
  split; [eexists; exact Hc|]. split; [exact Ho|].
  destruct (pay_before_complete_refused _ _ 1 _ Hc Ho eq_refl)
    as (w' & Hpay & Herr & _ & _ & Hord & _).
  exists w'. split; [exact Hpay|]. split; [exact Herr | exact Hord].
Defined.

(** ** Paying twice *)

Lemma main_iter_pay_refused w w1 :
  (showMenuOptions;; checkNum 1 4 choice_prompt) w = Ret 3 w1 ->
  allOrdersPaidAndComplete w = true ->
  main_iter w = Ret true (add_cout [OStr ("No unpaid orders available." +:+ nl)] w1).
Proof.
  intros H Ha. apply bind_inv in H as (u & w0 & Hm & Hc).
  unfold main_iter. fold choice_prompt. mstep Hm. mstep Hc.
  apply showMenuOptions_Ret in Hm as ((_ & Ho0 & _) & _).
  apply checkNum_Ret in Hc as (_ & (_ & Ho1 & _) & _).
  rewrite (allOrdersPaidAndComplete_same w w1) by congruence.
  rewrite Ha, andb_false_r. reflexivity.
Qed.

(** C3, as the source has it.  There is no check of [isPaid] on the order
    that is being paid.  A second payment of a settled order is refused only
    through the gate on the whole book: when every order is settled,
    [payForOrder] prints its "No pending orders" notice and changes nothing,
    and option 3 of the main menu answers "No unpaid orders available.".
    While some other order is unsettled, the attempt runs like a first
    payment: the bill is shown and, once confirmed, the order is marked paid
    again, the table emptied and another receipt written. *)
Theorem second_payment (w : World) (tableId : Z) (order : Order) :
  orders w !! tableId = Some order ->
  isCompleted order = true -> isPaid order = true ->
  (allOrdersPaidAndComplete w = true ->
     payForOrder w =
       Ret tt (add_cout
                 [OStr ("No pending orders / all have been completed and paid." +:+ nl)] w)
     /\ forall w1,
          (showMenuOptions;; checkNum 1 4 choice_prompt) w = Ret 3 w1 ->
          main_iter w =
            Ret true (add_cout [OStr ("No unpaid orders available." +:+ nl)] w1)) /\
  (forall w1 c rest,
     pay_prompt w tableId w1 ->
     read_char (cin w1) = (Some c, rest) ->
     c = ("y"%char) \/ c = ("Y"%char) ->
     payForOrder w = Ret tt (paid_world tableId order rest w1)).
Proof.
  intros Ho Hdone Hpaid. split.
  - intros Ha. split; [now apply payForOrder_nothing_pending|].
    intros w1 H. now apply main_iter_pay_refused.
  - intros w1 c rest Hp Hread Hy. eapply payForOrder_confirmed; eassumption.
Qed.

(** The claim C3 as it is stated fails: with table 2 still waiting, a second
    payment of table 1, whose order is completed and paid, is accepted.  No
    error is reported and a second receipt is written. *)
Lemma second_payment_accepted :
  reachable repay_world /\
  orders repay_world !! 1 = Some (mkOrder [RAW_FISH] true true) /\
  orders repay_world !! 2 = Some (mkOrder [HAM] false false) /\
  exists w1 rest,
    pay_prompt repay_world 1 w1 /\
    payForOrder repay_world
      = Ret tt (paid_world 1 (mkOrder [RAW_FISH] true true) rest w1) /\
    cerr (paid_world 1 (mkOrder [RAW_FISH] true true) rest w1) = [] /\
    files repay_world !! receipt_name 1001 = None /\
    files (paid_world 1 (mkOrder [RAW_FISH] true true) rest w1) !! receipt_name 1001
      = Some (receipt 1 (mkOrder [RAW_FISH] true true) (bill_of [RAW_FISH])).
Proof.
  split; [apply repay_world_reachable|].
  split; [vm_compute; reflexivity|]. split; [vm_compute; reflexivity|].
  exists (run (checkOrderAndTableStatus "Enter table number to pay: ") repay_world),
         nl.
  split; [split; [vm_compute; reflexivity | discriminate]|].
  split; [vm_compute; reflexivity|]. split; [vm_compute; reflexivity|].
  split; vm_compute; reflexivity.
Qed.

Lemma second_payment_witness :
  orders repay_world !! 1 = Some (mkOrder [RAW_FISH] true true) /\
  (forall w1 c rest,
     pay_prompt repay_world 1 w1 ->
     read_char (cin w1) = (Some c, rest) ->
     c = ("y"%char) \/ c = ("Y"%char) ->
     payForOrder repay_world
       = Ret tt (paid_world 1 (mkOrder [RAW_FISH] true true) rest w1)).
Proof.
  assert (orders repay_world !! 1 = Some (mkOrder [RAW_FISH] true true)) as Ho
    by (vm_compute; reflexivity).
  split; [exact Ho|].
  exact (proj2 (second_payment repay_world 1 _ Ho eq_refl eq_refl)).
Defined.

(** ** Seats *)

(** C4.  In every reachable world every table has between 0 and [capacity]
    guests seated. *)
Theorem seats_within_capacity (w : World) :
  reachable w ->
  forall tableId t, tables w !! tableId = Some t ->
    0 <= seatedGuests t <= capacity t.
Proof.
  intros Hr tableId t Ht.
  destruct (reachable_invariants w Hr) as [Hok _].
  now destruct (Hok tableId t Ht).
Qed.

Lemma seats_within_capacity_witness :
  reachable unfinished_world /\
  tables unfinished_world !! 1 = Some (mkTable 4 2) /\
  0 <= 2 <= 4.
Proof.
  assert (tables unfinished_world !! 1 = Some (mkTable 4 2)) as Ht
    by (vm_compute; reflexivity).
  split; [apply unfinished_world_reachable|]. split; [exact Ht|].
  exact (seats_within_capacity unfinished_world unfinished_world_reachable 1 _ Ht).
Defined.

(** C7.  In every reachable world a paid order is a completed order. *)
Theorem paid_implies_completed (w : World) :
  reachable w ->
  forall tableId o, orders w !! tableId = Some o ->
    isPaid o = true -> isCompleted o = true.
Proof.
  intros Hr. destruct (reachable_invariants w Hr) as [_ Hok]. exact Hok.
Qed.

Lemma paid_implies_completed_witness :
  reachable repay_world /\
  orders repay_world !! 1 = Some (mkOrder [RAW_FISH] true true) /\
  isCompleted (mkOrder [RAW_FISH] true true) = true.
Proof.
  assert (orders repay_world !! 1 = Some (mkOrder [RAW_FISH] true true)) as Ho
    by (vm_compute; reflexivity).
  split; [apply repay_world_reachable|]. split; [exact Ho|].
  exact (paid_implies_completed repay_world repay_world_reachable 1 _ Ho eq_refl).
Defined.

(** ** The bill *)

(** C8.  Raw Fish costs 35 and Eggs 45; for these two items the bill of
    [payForOrder] has subtotal 80, tax 8.0, tip 16.0 and total 104.0, the
    three [double]s exactly.  In scenario A (table 1, two guests, Raw Fish
    and Eggs, order completed) [payForOrder] shows this bill and, once
    confirmed, writes it on the receipt. *)
Theorem bill_scenario_A :
  entreePrices_at (Entrees_value RAW_FISH) = 35 /\
  entreePrices_at (Entrees_value EGGS) = 45 /\
  TAX_RATE = 0.10%float /\ TIP_RATE = 0.20%float /\
  bill_of [RAW_FISH; EGGS] = mkBill 80 8%float 16%float 104%float /\
  tables scenario_A_world !! 1 = Some (mkTable 4 2) /\
  orders scenario_A_world !! 1 = Some (mkOrder [RAW_FISH; EGGS] true false) /\
  exists w',
    payForOrder scenario_A_world = Ret tt w' /\
    (exists shown_before shown_after,
       cout w' = shown_before ++
                 bill_shown (mkBill 80 8%float 16%float 104%float) ++
                 shown_after) /\
    files w' !! receipt_name 1000 =
      Some (receipt 1 (mkOrder [RAW_FISH; EGGS] true true)
              (mkBill 80 8%float 16%float 104%float)).
Proof.
  split; [vm_compute; reflexivity|]. split; [vm_compute; reflexivity|].
  split; [reflexivity|]. split; [reflexivity|].
  split; [vm_compute; reflexivity|]. split; [vm_compute; reflexivity|].
  split; [vm_compute; reflexivity|].
  exists (run payForOrder scenario_A_world).
  split; [vm_compute; reflexivity|]. split; [|vm_compute; reflexivity].
  exists (cout (run (checkOrderAndTableStatus "Enter table number to pay: ")
                  scenario_A_world)).
  exists [OStr "Confirm payment? (y/n): ";
          OStr "Payment successful. Receipt saved to '";
          OStr (receipt_name 1000); OStr ("'." +:+ nl)].
  vm_compute. reflexivity.
Qed.

(** ** Seating more guests than there are seats *)

(** A number above the maximum is answered with "Invalid input. Try again."
    and the prompt again; nothing but the console changes. *)
Lemma checkNum_refuses min max prompt w v rest :
  read_int (cin w) = (Some v, rest) -> max < v ->
  checkNum min max prompt w = checkNum min max prompt (refused_entry prompt rest w).
Proof.
  intros Hread Hv. unfold checkNum at 1. rewrite checkNum_loop_step, Hread.
  assert ((v <? min) || (max <? v) = true) as ->
    by (apply orb_true_iff; right; lia).
  fold (refused_entry prompt rest w). unfold checkNum.
  assert (cin w <> EmptyString) as Hne.
  { intros He. rewrite He in Hread. discriminate. }
  pose proof (refused_read_length _ _ _ Hread Hne) as Hlt.
  apply checkNum_loop_fuel; unfold refused_entry; wsimpl; lia.
Qed.

(** C5, as the source has it.  A guest count above [availableSeats] is never
    seated, but [placeOrder] does not fail on it: [checkNum] answers
    "Invalid input. Try again." and asks again, with the tables as they
    were.  A full table makes [placeOrder] return at once with "Sorry! Table
    is full.".  Whenever [placeOrder] returns, the chosen table is either
    full and as it was, or has between 1 and [availableSeats] guests more. *)
Theorem placeOrder_within_capacity (w : World) :
  seats_ok w ->
  (forall w0 avail v rest,
     read_int (cin w0) = (Some v, rest) -> avail < v ->
     checkNum 1 avail guests_prompt w0
       = checkNum 1 avail guests_prompt (refused_entry guests_prompt rest w0) /\
     same_state w0 (refused_entry guests_prompt rest w0)) /\
  (forall tableId w1,
     checkNum 1 TABLE_QTY table_prompt w = Ret tableId w1 ->
     availableSeats_at w tableId <= 0 ->
     exists w',
       placeOrder w = Ret tt w' /\
       tables w' !! tableId = Some (table_at w tableId) /\
       cout w' = cout w1 ++
         [OStr "Sorry! Table "; OInt tableId; OStr (" is full." +:+ nl)]) /\
  (forall w', placeOrder w = Ret tt w' ->
     exists tableId t',
       1 <= tableId <= TABLE_QTY /\
       tables w' !! tableId = Some t' /\
       (forall other, other <> tableId -> tables w' !! other = tables w !! other) /\
       capacity t' = capacity (table_at w tableId) /\
       ((capacity t' - seatedGuests (table_at w tableId) <= 0 /\
         seatedGuests t' = seatedGuests (table_at w tableId))
        \/
        (exists guests,
           1 <= guests <= capacity t' - seatedGuests (table_at w tableId) /\
           seatedGuests t' = seatedGuests (table_at w tableId) + guests))).
Proof.
  intros Hok. split; [|split].
  - intros w0 avail v rest Hread Hv. split.
    + eapply checkNum_refuses; eassumption.
    + unfold refused_entry. now repeat split.
  - intros tableId w1 H1 Hfull. eexists. split.
    + apply placeOrder_full; eassumption.
    + wsimpl. split; [apply lookup_insert_eq | reflexivity].
  - intros w' H. apply placeOrder_Ret in H as (Hp & _).
    destruct Hp as [tableId Hr Ha Htb _ | tableId guests new_items Hr Hg _ Htb _];
      destruct (table_at_ok w tableId Hok) as [Hcap Hseat];
      rewrite (availableSeats_at_ok _ _ Hok) in *.
    + exists tableId, (table_at w tableId).
      split; [exact Hr|]. rewrite Htb.
      split; [apply lookup_insert_eq|].
      split; [intros other Hne; now apply lookup_insert_ne|].
      split; [reflexivity|]. left. rewrite Hcap. split; [lia | reflexivity].
    + eexists tableId, _.
      split; [exact Hr|]. rewrite Htb.
      split; [apply lookup_insert_eq|].
      split; [intros other Hne; now apply lookup_insert_ne|].
      split; [reflexivity|]. right. exists guests. cbn [capacity seatedGuests].
      rewrite Hcap. split; [exact Hg|].
      unfold int_add. apply wrap_int_small.
      unfold TABLE_CAPACITY, INT_MIN, INT_MAX in *. lia.
Qed.

(** The claim C5 as it is stated fails: 5 typed as the guest count of an
    empty table of four does not make [placeOrder] fail.  The prompt comes
    again, 2 is typed, and [placeOrder] returns with two guests seated. *)
Lemma overfull_entry_asked_again :
  tables (start_world overfull_input) !! 1 = Some (mkTable 4 0) /\
  availableSeats_at (start_world overfull_input) 1 = 4 /\
  exists w1 w2 rest w',
    checkNum 1 TABLE_QTY table_prompt (start_world overfull_input) = Ret 1 w1 /\
    (tables_index 1;; placeOrder_notice 4) w1 = Ret tt w2 /\
    read_int (cin w2) = (Some 5, rest) /\
    placeOrder (start_world overfull_input) = Ret tt w' /\
    tables w' !! 1 = Some (mkTable 4 2) /\
    orders w' !! 1 = Some (mkOrder [RAW_FISH; RAW_FISH] false false).
Proof.
  split; [vm_compute; reflexivity|]. split; [vm_compute; reflexivity|].
  exists (run (checkNum 1 TABLE_QTY table_prompt) (start_world overfull_input)).
  exists (run (tables_index 1;; placeOrder_notice 4)
            (run (checkNum 1 TABLE_QTY table_prompt) (start_world overfull_input))).
  exists (nl +:+ stdin_lines ["2"; "1"; "1"]%string).
  exists (run placeOrder (start_world overfull_input)).
  split; [vm_compute; reflexivity|]. split; [vm_compute; reflexivity|].
  split; [vm_compute; reflexivity|]. split; [vm_compute; reflexivity|].
  split; vm_compute; reflexivity.
Qed.

Lemma placeOrder_within_capacity_witness :
  seats_ok (start_world overfull_input) /\
  (forall w', placeOrder (start_world overfull_input) = Ret tt w' ->
     exists tableId t',
       1 <= tableId <= TABLE_QTY /\
       tables w' !! tableId = Some t' /\
       (forall other, other <> tableId ->
          tables w' !! other = tables (start_world overfull_input) !! other) /\
       capacity t' = capacity (table_at (start_world overfull_input) tableId) /\
       ((capacity t' - seatedGuests (table_at (start_world overfull_input) tableId) <= 0 /\
         seatedGuests t' = seatedGuests (table_at (start_world overfull_input) tableId))
        \/
        (exists guests,
           1 <= guests <=
             capacity t' - seatedGuests (table_at (start_world overfull_input) tableId) /\
           seatedGuests t' =
             seatedGuests (table_at (start_world overfull_input) tableId) + guests))).
Proof.
  assert (seats_ok (start_world overfull_input)) as Hok
    by exact (proj1 (reachable_invariants _ (start_world_reachable overfull_input))).
  split; [exact Hok|].
  exact (proj2 (proj2 (placeOrder_within_capacity (start_world overfull_input) Hok))).
Defined.

(** ** A successful payment *)

Lemma checkTableStatus_shows w tableId :
  1 <= tableId <= TABLE_QTY ->
  exists before after,
    checkTableStatus w =
    Ret tt (add_cout (before ++ checkTableStatus_line w tableId ++ after) w).
Proof.
  intros Hr. rewrite checkTableStatus_Ret.
  assert (tableId = 1 \/ tableId = 2 \/ tableId = 3 \/ tableId = 4) as Hcase
    by (unfold TABLE_QTY in Hr; lia).
  change (flat_map (checkTableStatus_line w) (seqZ 1 TABLE_QTY))
    with (checkTableStatus_line w 1 ++ checkTableStatus_line w 2 ++
          checkTableStatus_line w 3 ++ checkTableStatus_line w 4 ++ []).
  destruct Hcase as [-> | [-> | [-> | ->]]].
  - exists [], (checkTableStatus_line w 2 ++ checkTableStatus_line w 3 ++
                checkTableStatus_line w 4 ++ []). reflexivity.
  - exists (checkTableStatus_line w 1),
           (checkTableStatus_line w 3 ++ checkTableStatus_line w 4 ++ []).
    reflexivity.
  - exists (checkTableStatus_line w 1 ++ checkTableStatus_line w 2),
           (checkTableStatus_line w 4 ++ []).
    now rewrite <- !app_assoc.
  - exists (checkTableStatus_line w 1 ++ checkTableStatus_line w 2 ++
            checkTableStatus_line w 3), [].
    now rewrite <- !app_assoc.
Qed.

(** C6.  Right after a confirmed payment of a table, the table has no guest
    seated and its order has both flags set, which [checkTableStatus] reports
    as "all done". *)
Theorem payment_settles (w w1 : World) (tableId : Z) (order : Order)
    (c : ascii) (rest : string) :
  pay_prompt w tableId w1 ->
  orders w !! tableId = Some order ->
  isCompleted order = true ->
  read_char (cin w1) = (Some c, rest) ->
  c = ("y"%char) \/ c = ("Y"%char) ->
  exists w',
    payForOrder w = Ret tt w' /\
    (exists t', tables w' !! tableId = Some t' /\ seatedGuests t' = 0) /\
    orders w' !! tableId = Some (mkOrder (items order) true true) /\
    checkTableStatus_line w' tableId =
      [OStr "Table #"; OInt tableId; OStr " status: "; OStr "all done"; OEndl] /\
    exists before after,
      checkTableStatus w' =
      Ret tt (add_cout
                (before ++
                 [OStr "Table #"; OInt tableId; OStr " status: ";
                  OStr "all done"; OEndl] ++ after) w').
Proof.
  intros Hp Ho Hdone Hread Hy.
  exists (paid_world tableId order rest w1).
  split; [eapply payForOrder_confirmed; eassumption|].
  destruct (pay_prompt_same _ _ _ Hp) as (_ & _ & Hr & _).
  assert (orders (paid_world tableId order rest w1) !! tableId
          = Some (mkOrder (items order) true true)) as Ho'.
  { unfold paid_world. cbn [orders]. rewrite Hdone. apply lookup_insert_eq. }
  assert (checkTableStatus_line (paid_world tableId order rest w1) tableId =
          [OStr "Table #"; OInt tableId; OStr " status: "; OStr "all done"; OEndl])
    as Hline by (unfold checkTableStatus_line; now rewrite Ho').
  split.
  { eexists. split; [unfold paid_world; cbn [tables]; apply lookup_insert_eq|].
    reflexivity. }
  split; [exact Ho'|]. split; [exact Hline|].
  rewrite <- Hline. now apply checkTableStatus_shows.
Qed.

Lemma payment_settles_witness :
  orders (reorder_world 2) !! 1 = Some (mkOrder [RAW_FISH] true false) /\
  tables (reorder_world 2) !! 1 = Some (mkTable 4 1) /\
  exists w',
    payForOrder (set_cin (stdin_lines ["1"; "y"]%string) (reorder_world 2))
      = Ret tt w' /\
    (exists t', tables w' !! 1 = Some t' /\ seatedGuests t' = 0) /\
    orders w' !! 1 = Some (mkOrder [RAW_FISH] true true) /\
    checkTableStatus_line w' 1 =
      [OStr "Table #"; OInt 1; OStr " status: "; OStr "all done"; OEndl].
Proof.
  split; [vm_compute; reflexivity|]. split; [vm_compute; reflexivity|].
  assert (pay_prompt (set_cin (stdin_lines ["1"; "y"]%string) (reorder_world 2)) 1
            (run (checkOrderAndTableStatus "Enter table number to pay: ")
               (set_cin (stdin_lines ["1"; "y"]%string) (reorder_world 2)))) as Hp
    by (split; [vm_compute; reflexivity | discriminate]).
  destruct (payment_settles _ _ 1 (mkOrder [RAW_FISH] true false) "y"%char nl Hp)
    as (w' & Hpay & Hseat & Hord & Hline & _);
    [vm_compute; reflexivity | reflexivity | vm_compute; reflexivity
    | left; reflexivity |].
  exists w'. split; [exact Hpay|]. split; [exact Hseat|].
  split; [exact Hord | exact Hline].
Defined.

(** ** A payment that is not confirmed *)

(** C9.  When the character read at "Confirm payment? (y/n)" is neither [y]
    nor [Y], [payForOrder] prints "Payment cancelled." and returns: tables,
    orders, files and the [rand()] position are what they were, so the order
    keeps its items and both its flags, the table keeps its guests and no
    receipt is written. *)
Theorem payment_not_confirmed (w w1 : World) (tableId : Z) (order : Order)
    (c : ascii) (rest : string) :
  pay_prompt w tableId w1 ->
  orders w !! tableId = Some order ->
  isCompleted order = true ->
  read_char (cin w1) = (Some c, rest) ->
  c <> ("y"%char) -> c <> ("Y"%char) ->
  exists w',
    payForOrder w = Ret tt w' /\
    orders w' = orders w /\ tables w' = tables w /\ files w' = files w /\
    rand_calls w' = rand_calls w /\
    orders w' !! tableId = Some order /\
    (isPaid order = false ->
       forall o', orders w' !! tableId = Some o' -> isPaid o' = false) /\
    cout w' = cout w1 ++ bill_shown (bill_of (items order)) ++
                [OStr "Confirm payment? (y/n): "] ++
                [OStr ("Payment cancelled." +:+ nl)].
Proof.
  intros Hp Ho Hdone Hread Hy HY.
  exists (cancelled_world order rest w1).
  split; [eapply payForOrder_cancelled; eassumption|].
  destruct (pay_prompt_same _ _ _ Hp) as ((Ht1 & Ho1 & Hf1 & Hr1 & _) & _).
  unfold cancelled_world. cbn [orders tables files rand_calls cout].
  split; [exact Ho1|]. split; [exact Ht1|]. split; [exact Hf1|].
  split; [exact Hr1|]. split; [now rewrite Ho1|].
  split; [|reflexivity].
  intros Hpaid o'. rewrite Ho1, Ho. now intros [= <-].
Qed.

Lemma payment_not_confirmed_witness :
  orders (reorder_world 2) !! 1 = Some (mkOrder [RAW_FISH] true false) /\
  exists w',
    payForOrder (set_cin (stdin_lines ["1"; "n"]%string) (reorder_world 2))
      = Ret tt w' /\
    orders w' = orders (reorder_world 2) /\
    tables w' = tables (reorder_world 2) /\
    files w' = files (reorder_world 2) /\
    orders w' !! 1 = Some (mkOrder [RAW_FISH] true false).
Proof.
  split; [vm_compute; reflexivity|].
  assert (pay_prompt (set_cin (stdin_lines ["1"; "n"]%string) (reorder_world 2)) 1
            (run (checkOrderAndTableStatus "Enter table number to pay: ")
               (set_cin (stdin_lines ["1"; "n"]%string) (reorder_world 2)))) as Hp
    by (split; [vm_compute; reflexivity | discriminate]).
  destruct (payment_not_confirmed _ _ 1 (mkOrder [RAW_FISH] true false)
              "n"%char nl Hp)
    as (w' & Hpay & Hord & Htab & Hfiles & _ & Hlook & _);
    [vm_compute; reflexivity | reflexivity | vm_compute; reflexivity
    | discriminate | discriminate |].
  exists w'. split; [exact Hpay|]. split; [exact Hord|].
  split; [exact Htab|]. split; [exact Hfiles | exact Hlook].
Defined.

(** ** Ordering again at a settled table *)

Lemma availableSeats_at_empty w tableId table :
  tables w !! tableId = Some table -> seatedGuests table = 0 ->
  availableSeats_at w tableId = TABLE_CAPACITY.
Proof.
  intros Ht Hs. unfold availableSeats_at, table_at. rewrite Ht. simpl.
  rewrite Hs. reflexivity.
Qed.

(** C10, as the source has it.  [placeOrder] does not look at the flags of
    the order.  At a table whose order is completed and paid and whose seats
    were reset to 0 it seats the new guests and appends their choices to the
    old order record, which keeps [isCompleted] and [isPaid] set.  The
    appended items cannot be billed while every order is settled, since
    [payForOrder] then refuses any payment; they are billed, together with
    the items that were paid before, when the table is paid again while
    another order is unsettled. *)
Theorem reorder_after_payment (w w1 w3 w5 : World) (tableId guests : Z)
    (order : Order) (table : Table) (new_items : list Entrees) :
  orders w !! tableId = Some order ->
  isCompleted order = true -> isPaid order = true ->
  tables w !! tableId = Some table -> seatedGuests table = 0 ->
  checkNum 1 TABLE_QTY table_prompt w = Ret tableId w1 ->
  (tables_index tableId;;
   placeOrder_notice TABLE_CAPACITY;;
   checkNum 1 TABLE_CAPACITY guests_prompt) w1 = Ret guests w3 ->
  (showMenu;; placeOrder_items (Z.to_nat guests) 0 [])
    (set_tables (alter (fun t => mkTable (capacity t)
                                   (int_add (seatedGuests t) guests)) tableId) w3)
    = Ret new_items w5 ->
  exists w',
    placeOrder w = Ret tt w' /\
    1 <= guests <= TABLE_CAPACITY /\
    length new_items = Z.to_nat guests /\
    tables w' !! tableId = Some (mkTable (capacity table) guests) /\
    orders w' !! tableId = Some (mkOrder (items order ++ new_items) true true) /\
    (allOrdersPaidAndComplete w' = true ->
       payForOrder w' =
         Ret tt (add_cout
                   [OStr ("No pending orders / all have been completed and paid." +:+ nl)]
                   w')) /\
    (forall w1' c rest,
       pay_prompt w' tableId w1' ->
       read_char (cin w1') = (Some c, rest) ->
       c = ("y"%char) \/ c = ("Y"%char) ->
       payForOrder w' =
         Ret tt (paid_world tableId (mkOrder (items order ++ new_items) true true)
                   rest w1')).
Proof.
  intros Ho Hdone Hpaid Ht Hseat H1 H2 H3.
  pose proof (availableSeats_at_empty _ _ _ Ht Hseat) as Ha.
  rewrite <- Ha in H2.
  destruct (placeOrder_seated w tableId w1 guests w3 new_items w5 H1)
    as (w' & Hplace & Hg & Hlen & Htb & Hob & _); try assumption.
  { rewrite Ha. reflexivity. }
  rewrite Ha in Hg.
  assert (orders w' !! tableId = Some (mkOrder (items order ++ new_items) true true))
    as Ho'.
  { rewrite Hob, lookup_insert_eq. unfold order_at. rewrite Ho. simpl.
    now rewrite Hdone, Hpaid. }
  exists w'. split; [exact Hplace|]. split; [exact Hg|]. split; [exact Hlen|].
  split.
  { rewrite Htb, lookup_insert_eq. unfold table_at. rewrite Ht. simpl.
    rewrite Hseat. unfold int_add. rewrite wrap_int_small; [reflexivity|].
    unfold TABLE_CAPACITY, INT_MIN, INT_MAX in *. lia. }
  split; [exact Ho'|]. split.
  - apply payForOrder_nothing_pending.
  - intros w1' c rest Hp Hread Hy.
    eapply payForOrder_confirmed; try eassumption. reflexivity.
Qed.

(** The claim C10 as it is stated fails in its last part: the Eggs ordered at
    table 1 after its first payment are billed.  Table 2 orders next, which
    opens payment again, and the second payment of table 1 charges 80 for Raw
    Fish and Eggs and writes both on the receipt. *)
Lemma reorder_items_billed :
  reachable (reorder_world 6) /\
  orders (reorder_world 3) !! 1 = Some (mkOrder [RAW_FISH] true true) /\
  tables (reorder_world 3) !! 1 = Some (mkTable 4 0) /\
  orders (reorder_world 4) !! 1 = Some (mkOrder [RAW_FISH; EGGS] true true) /\
  tables (reorder_world 4) !! 1 = Some (mkTable 4 1) /\
  main_iter (reorder_world 5) = Ret true (reorder_world 6) /\
  files (reorder_world 5) !! receipt_name 1001 = None /\
  files (reorder_world 6) !! receipt_name 1001 =
    Some (receipt 1 (mkOrder [RAW_FISH; EGGS] true true)
            (bill_of [RAW_FISH; EGGS])) /\
  subtotal (bill_of [RAW_FISH; EGGS]) = 80 /\
  tables (reorder_world 6) !! 1 = Some (mkTable 4 0).
Proof.
  split; [apply reorder_world_reachable; lia|].
  split; [vm_compute; reflexivity|]. split; [vm_compute; reflexivity|].
  split; [vm_compute; reflexivity|]. split; [vm_compute; reflexivity|].
  split; [vm_compute; reflexivity|]. split; [vm_compute; reflexivity|].
  split; [vm_compute; reflexivity|]. split; vm_compute; reflexivity.
Qed.

Lemma reorder_after_payment_witness :
  orders reorder_typed !! 1 = Some (mkOrder [RAW_FISH] true true) /\
  tables reorder_typed !! 1 = Some (mkTable 4 0) /\
  exists w',
    placeOrder reorder_typed = Ret tt w' /\
    tables w' !! 1 = Some (mkTable 4 1) /\
    orders w' !! 1 = Some (mkOrder ([RAW_FISH] ++ [EGGS]) true true) /\
    (allOrdersPaidAndComplete w' = true ->
       payForOrder w' =
         Ret tt (add_cout
                   [OStr ("No pending orders / all have been completed and paid." +:+ nl)]
                   w')).
Proof.
  assert (orders reorder_typed !! 1 = Some (mkOrder [RAW_FISH] true true)) as Ho
    by (vm_compute; reflexivity).
  assert (tables reorder_typed !! 1 = Some (mkTable 4 0)) as Ht
    by (vm_compute; reflexivity).
  assert (checkNum 1 TABLE_QTY table_prompt reorder_typed = Ret 1 reorder_w1) as H1
    by (vm_compute; reflexivity).
  assert ((tables_index 1;; placeOrder_notice TABLE_CAPACITY;;
           checkNum 1 TABLE_CAPACITY guests_prompt) reorder_w1 = Ret 1 reorder_w3)
    as H2 by (vm_compute; reflexivity).
  assert ((showMenu;; placeOrder_items (Z.to_nat 1) 0 [])
            (set_tables (alter (fun t => mkTable (capacity t)
                                           (int_add (seatedGuests t) 1)) 1) reorder_w3)
          = Ret [EGGS] reorder_w5) as H3 by (vm_compute; reflexivity).
  split; [exact Ho|]. split; [exact Ht|].
  destruct (reorder_after_payment _ _ _ _ 1 1 _ _ _ Ho eq_refl eq_refl Ht eq_refl
              H1 H2 H3)
    as (w' & Hplace & _ & _ & Htab & Hord & Hrefused & _).
  exists w'. split; [exact Hplace|]. split; [exact Htab|].
  split; [exact Hord | exact Hrefused].
Defined.

(** * Further properties of the program *)

(** ** checkNum and the input *)

Lemma read_int_range s v r :
  read_int s = (Some v, r) -> INT_MIN <= v <= INT_MAX.
Proof.
  unfold read_int.
  destruct (read_sign (skipws s)) as [neg s2].
  destruct (read_digits s2 None) as [[n|] s3]; [|discriminate].
  destruct ((INT_MIN <=? (if neg then - n else n)) &&
            ((if neg then - n else n) <=? INT_MAX)) eqn:Hb; [|discriminate].
  intros H. inversion H; subst. apply andb_true_iff in Hb. lia.
Qed.

Lemma checkNum_loop_int fuel min max prompt w v w' :
  checkNum_loop fuel min max prompt w = Ret v w' -> INT_MIN <= v <= INT_MAX.
Proof.
  revert w. induction fuel as [|fuel IH]; intros w; [discriminate|].
  rewrite checkNum_loop_step.
  destruct (read_int (cin w)) as [[val|] rest] eqn:Hread; [|apply IH].
  destruct ((val <? min) || (max <? val)); [apply IH|].
  intros H. inversion H; subst. eapply read_int_range; eassumption.
Qed.

(** X1.  Whatever is typed, a value that [checkNum] returns lies between
    [min] and [max] and fits an [int]; the call has read at least one
    character and has changed nothing but the console: tables, orders, files
    and [cerr] are as before. *)
Theorem checkNum_returns_in_range (min max : Z) (prompt : string)
    (w w' : World) (v : Z) :
  checkNum min max prompt w = Ret v w' ->
  min <= v <= max /\ INT_MIN <= v <= INT_MAX /\
  tables w' = tables w /\ orders w' = orders w /\ files w' = files w /\
  cerr w' = cerr w /\
  (String.length (cin w') < String.length (cin w))%nat.
Proof.
  intros H.
  destruct (checkNum_Ret _ _ _ _ _ _ H) as (Hr & (Ht & Ho & Hf & _) & He).
  split; [exact Hr|]. split; [eapply checkNum_loop_int; exact H|].
  split; [exact Ht|]. split; [exact Ho|]. split; [exact Hf|].
  split; [exact He|]. eapply reads_some_checkNum. exact H.
Qed.

Lemma checkNum_returns_in_range_witness :
  exists w',
    checkNum 1 4 choice_prompt
      (init_world (stdin_lines ["abc"; "7 2"; "99999999999"; "3"]%string) rand_count)
      = Ret 3 w' /\
    1 <= 3 <= 4 /\ cin w' = nl.
Proof.
  exists (run (checkNum 1 4 choice_prompt)
            (init_world (stdin_lines ["abc"; "7 2"; "99999999999"; "3"]%string)
               rand_count)).
  assert (checkNum 1 4 choice_prompt
            (init_world (stdin_lines ["abc"; "7 2"; "99999999999"; "3"]%string)
               rand_count)
          = Ret 3 (run (checkNum 1 4 choice_prompt)
                     (init_world
                        (stdin_lines ["abc"; "7 2"; "99999999999"; "3"]%string)
                        rand_count))) as H by (vm_compute; reflexivity).
  split; [exact H|].
  split; [exact (proj1 (checkNum_returns_in_range _ _ _ _ _ _ H))|].
  vm_compute. reflexivity.
Defined.

(** X2.  An entry that is not a number that fits an [int], or that is below
    [min] or above [max], is refused: [checkNum] prints "Invalid input. Try
    again.", drops the rest of the line and behaves from there as a fresh
    call; nothing but the console has changed. *)
Theorem checkNum_refuses_entry (min max : Z) (prompt : string) (w : World)
    (r : option Z) (rest : string) :
  read_int (cin w) = (r, rest) ->
  (r = None \/ exists v, r = Some v /\ (v < min \/ max < v)) ->
  checkNum min max prompt w = checkNum min max prompt (refused_entry prompt rest w) /\
  same_state w (refused_entry prompt rest w) /\
  cin (refused_entry prompt rest w) = ignore_line rest.
Proof.
  intros Hread Hbad.
  split; [|split; [unfold refused_entry; now repeat split | reflexivity]].
  destruct (cin w) as [|c0 s0] eqn:Hcin.
  { unfold checkNum. rewrite !checkNum_loop_eof; try reflexivity; [|exact Hcin].
    unfold refused_entry. wsimpl.
    apply read_int_length in Hread as [Hle _]. simpl in Hle.
    destruct rest; [reflexivity | simpl in Hle; lia]. }
  assert (cin w <> EmptyString) as Hne by (rewrite Hcin; discriminate).
  rewrite <- Hcin in Hread.
  pose proof (refused_read_length _ _ _ Hread Hne) as Hlt.
  unfold checkNum at 1. rewrite checkNum_loop_step, Hread.
  assert (checkNum_loop (String.length (cin w)) min max prompt
            (refused_entry prompt rest w)
          = checkNum min max prompt (refused_entry prompt rest w)) as Hfuel.
  { unfold checkNum. apply checkNum_loop_fuel; unfold refused_entry; wsimpl; lia. }
  fold (refused_entry prompt rest w).
  destruct Hbad as [-> | (v & -> & Hv)]; [exact Hfuel|].
  assert ((v <? min) || (max <? v) = true) as ->
    by (apply orb_true_iff; lia).
  exact Hfuel.
Qed.

Lemma checkNum_refuses_entry_witness :
  read_int (stdin_lines ["7 2"; "3"]%string) = (Some 7, " 2" +:+ nl +:+ stdin_lines ["3"]%string) /\
  checkNum 1 4 choice_prompt (init_world (stdin_lines ["7 2"; "3"]%string) rand_count)
    = checkNum 1 4 choice_prompt
        (refused_entry choice_prompt (" 2" +:+ nl +:+ stdin_lines ["3"]%string)
           (init_world (stdin_lines ["7 2"; "3"]%string) rand_count)) /\
  cin (refused_entry choice_prompt (" 2" +:+ nl +:+ stdin_lines ["3"]%string)
         (init_world (stdin_lines ["7 2"; "3"]%string) rand_count))
    = stdin_lines ["3"]%string.
Proof.
  assert (read_int (cin (init_world (stdin_lines ["7 2"; "3"]%string) rand_count))
          = (Some 7, " 2" +:+ nl +:+ stdin_lines ["3"]%string)) as Hread
    by (vm_compute; reflexivity).
  split; [exact Hread|].
  destruct (checkNum_refuses_entry 1 4 choice_prompt _ _ _ Hread) as (H1 & _ & H3).
  { right. exists 7. split; [reflexivity | right; lia]. }
  split; [exact H1|]. rewrite H3. vm_compute. reflexivity.
Defined.

Lemma read_int_digit (d : Z) (c : ascii) (rest : string) :
  0 <= d <= 9 -> isdigit c = false ->
  read_int (String (digit_char d) (String c rest)) = (Some d, String c rest).
Proof.
  intros Hd Hc.
  assert (d = 0 \/ d = 1 \/ d = 2 \/ d = 3 \/ d = 4 \/ d = 5 \/ d = 6 \/
          d = 7 \/ d = 8 \/ d = 9) as Hcase by lia.
  unfold read_int.
  repeat destruct Hcase as [-> | Hcase]; try subst d;
    cbn [digit_char skipws read_sign read_digits]; simpl; rewrite Hc; reflexivity.
Qed.

(** X3.  One decimal digit of the range, followed by a character that is not
    a digit (the end of the line, say), is accepted at once: [checkNum]
    prints the prompt, returns the digit's value and leaves what follows the
    digit on the input. *)
Theorem checkNum_accepts_digit (min max d : Z) (prompt : string) (w : World)
    (c : ascii) (rest : string) :
  0 <= d <= 9 -> min <= d <= max ->
  cin w = String (digit_char d) (String c rest) -> isdigit c = false ->
  checkNum min max prompt w
    = Ret d (set_cin (String c rest) (add_cout [OStr prompt] w)).
Proof.
  intros Hd Hr Hcin Hc. unfold checkNum.
  rewrite checkNum_loop_step, Hcin, (read_int_digit d c rest Hd Hc).
  assert ((d <? min) || (max <? d) = false) as ->
    by (apply orb_false_iff; lia).
  reflexivity.
Qed.

Lemma checkNum_accepts_digit_witness :
  checkNum 1 4 choice_prompt (init_world (stdin_lines ["3"; "1"]%string) rand_count)
    = Ret 3 (set_cin (nl +:+ stdin_lines ["1"]%string)
               (add_cout [OStr choice_prompt]
                  (init_world (stdin_lines ["3"; "1"]%string) rand_count))).
Proof.
  apply (checkNum_accepts_digit 1 4 3 choice_prompt _ "010"%char
           (stdin_lines ["1"]%string)); [lia | lia | reflexivity | reflexivity].
Defined.

(** ** End of input *)

Lemma showMenuOptions_returns w :
  exists w0, showMenuOptions w = Ret tt w0 /\ cin w0 = cin w /\ same_state w w0.
Proof.
  unfold showMenuOptions.
  destruct (negb (orders_empty w) && negb (allOrdersPaidAndComplete w));
    destruct (negb (orders_empty w) && allOrdersPaidAndComplete w);
    eexists; (split; [reflexivity|]); now repeat split.
Qed.

Lemma main_iter_eof w : cin w = EmptyString -> main_iter w = Hang.
Proof.
  intros Hw. destruct (showMenuOptions_returns w) as (w0 & Hm & Hc & _).
  unfold main_iter. mstep Hm. unfold mbind, M_bind, checkNum.
  rewrite checkNum_loop_eof; [reflexivity | congruence].
Qed.

(** X4.  At the end of the input the program does not stop: [checkNum] asks
    and complains for ever, so neither [placeOrder] nor a round of the main
    loop nor [main] itself returns. *)
Theorem end_of_input_hangs (w : World) :
  cin w = EmptyString ->
  (forall min max prompt, checkNum min max prompt w = Hang) /\
  placeOrder w = Hang /\ main_iter w = Hang /\ main w = Hang.
Proof.
  intros Hw.
  assert (forall min max prompt, checkNum min max prompt w = Hang) as Hc.
  { intros min max prompt. unfold checkNum. now apply checkNum_loop_eof. }
  split; [exact Hc|]. split; [|split].
  - unfold placeOrder, mbind, M_bind. now rewrite Hc.
  - now apply main_iter_eof.
  - unfold main, mbind, M_bind. rewrite initializeTables_Ret.
    cbn [main_loop]. unfold mbind, M_bind.
    rewrite main_iter_eof; [reflexivity | exact Hw].
Qed.

Lemma end_of_input_hangs_witness :
  main (init_world EmptyString rand_count) = Hang.
Proof.
  exact (proj2 (proj2 (proj2
           (end_of_input_hangs (init_world EmptyString rand_count) eq_refl)))).
Defined.

(** ** completeOrder *)

Lemma complete_prompt_same w tableId w1 :
  complete_prompt w tableId w1 ->
  same_state w w1 /\ cerr w1 = cerr w /\ 1 <= tableId <= TABLE_QTY.
Proof.
  intros [H Hne]. apply checkOrderAndTableStatus_Ret in H as (Hs & He & Hcase).
  destruct Hcase as [(_ & -> & _)|(Ha & Hr)]; [congruence | auto].
Qed.

Lemma completeOrder_selected w tableId w1 order :
  complete_prompt w tableId w1 ->
  orders w !! tableId = Some order ->
  completeOrder w =
  Ret tt (add_cout [OStr "Order for table "; OInt tableId; OStr ": ";
                    OStr "*marked as complete";
                    OStr ("*awaiting payment." +:+ nl); OEndl]
            (set_orders (insert tableId (mkOrder (items order) true (isPaid order)))
               w1)).
Proof.
  intros Hp Ho.
  destruct (complete_prompt_same _ _ _ Hp) as ((_ & Ho1 & _) & _ & Hr).
  destruct Hp as [Hc Hne].
  unfold completeOrder. rewrite (bind_Ret _ _ _ _ _ Hc).
  assert ((tableId =? -1) = false) as -> by lia.
  rewrite <- Ho1 in Ho.
  assert (orders_count tableId w1 = true) as ->
    by (apply orders_count_spec; eauto).
  simpl. unfold mbind, M_bind, orders_index.
  rewrite (map_index_Some _ _ _ _ Ho), set_orders_id. reflexivity.
Qed.

(** X5.  [completeOrder] on a table that has an order sets the [isCompleted]
    flag of that order and nothing else: its items and its [isPaid] flag, the
    other orders, the tables, the files and [cerr] are as before. *)
Theorem completeOrder_marks (w w1 : World) (tableId : Z) (order : Order) :
  complete_prompt w tableId w1 ->
  orders w !! tableId = Some order ->
  exists w',
    completeOrder w = Ret tt w' /\
    orders w' !! tableId = Some (mkOrder (items order) true (isPaid order)) /\
    (forall other, other <> tableId -> orders w' !! other = orders w !! other) /\
    tables w' = tables w /\ files w' = files w /\ cerr w' = cerr w.
Proof.
  intros Hp Ho. eexists. split; [eapply completeOrder_selected; eassumption|].
  destruct (complete_prompt_same _ _ _ Hp) as ((Ht1 & Ho1 & Hf1 & _) & He & _).
  wsimpl. split; [apply lookup_insert_eq|].
  split; [intros other Hne; rewrite lookup_insert_ne by congruence; now rewrite Ho1|].
  now repeat split.
Qed.

Lemma completeOrder_marks_witness :
  orders unfinished_world !! 1 = Some (mkOrder [RAW_FISH; EGGS] false false) /\
  exists w',
    completeOrder unfinished_world = Ret tt w' /\
    orders w' !! 1 = Some (mkOrder [RAW_FISH; EGGS] true false).
Proof.
  assert (orders unfinished_world !! 1 = Some (mkOrder [RAW_FISH; EGGS] false false))
    as Ho by (vm_compute; reflexivity).
  assert (complete_prompt unfinished_world 1
            (run (checkOrderAndTableStatus "Enter table number to complete order: ")
               unfinished_world)) as Hp
    by (split; [vm_compute; reflexivity | discriminate]).
  split; [exact Ho|].
  destruct (completeOrder_marks _ _ 1 _ Hp Ho) as (w' & Hc & Hord & _).
  exists w'. split; [exact Hc | exact Hord].
Defined.

(** X6.  Completing an order that is completed already is accepted without
    complaint: the same "marked as complete" message is printed, nothing is
    written to [cerr], and the order book is exactly what it was. *)
Theorem completeOrder_again (w w1 : World) (tableId : Z) (order : Order) :
  complete_prompt w tableId w1 ->
  orders w !! tableId = Some order ->
  isCompleted order = true ->
  exists w',
    completeOrder w = Ret tt w' /\
    orders w' = orders w /\ tables w' = tables w /\ cerr w' = cerr w /\
    cout w' = cout w1 ++
      [OStr "Order for table "; OInt tableId; OStr ": ";
       OStr "*marked as complete"; OStr ("*awaiting payment." +:+ nl); OEndl].
Proof.
  intros Hp Ho Hdone. eexists.
  split; [eapply completeOrder_selected; eassumption|].
  destruct (complete_prompt_same _ _ _ Hp) as ((Ht1 & Ho1 & _) & He & _).
  wsimpl. split; [|now repeat split].
  rewrite Ho1. apply insert_id. rewrite Ho. f_equal.
  destruct order as [its done paid_]. simpl in *. now subst.
Qed.

Lemma completeOrder_again_witness :
  orders scenario_A_world !! 1 = Some (mkOrder [RAW_FISH; EGGS] true false) /\
  exists w',
    completeOrder scenario_A_world = Ret tt w' /\
    orders w' = orders scenario_A_world /\ cerr w' = cerr scenario_A_world.
Proof.
  assert (orders scenario_A_world !! 1 = Some (mkOrder [RAW_FISH; EGGS] true false))
    as Ho by (vm_compute; reflexivity).
  assert (complete_prompt scenario_A_world 1
            (run (checkOrderAndTableStatus "Enter table number to complete order: ")
               scenario_A_world)) as Hp
    by (split; [vm_compute; reflexivity | discriminate]).
  split; [exact Ho|].
  destruct (completeOrder_again _ _ 1 _ Hp Ho eq_refl) as (w' & Hc & Hord & _ & He & _).
  exists w'. split; [exact Hc|]. split; [exact Hord | exact He].
Defined.

(** ** A table without an order, and nothing pending *)

(** X7.  When the table chosen at the prompt has no order, [completeOrder]
    and [payForOrder] report "No order found for Table N." on [cerr] and
    return; they do not create an order for the table, and tables, orders and
    files are as before. *)
Theorem no_order_found (w : World) (tableId : Z) :
  orders w !! tableId = None ->
  (forall w1, complete_prompt w tableId w1 ->
     completeOrder w =
       Ret tt (add_cerr [OStr "No order found for Table "; OInt tableId;
                         OStr ("." +:+ nl)] w1) /\
     same_state w w1) /\
  (forall w1, pay_prompt w tableId w1 ->
     payForOrder w =
       Ret tt (add_cerr [OStr "No order found for Table "; OInt tableId;
                         OStr ("." +:+ nl)] w1) /\
     same_state w w1).
Proof.
  intros Ho. split; intros w1 Hp.
  - destruct (complete_prompt_same _ _ _ Hp) as (Hs & _ & Hr).
    split; [|exact Hs]. destruct Hs as (_ & Ho1 & _). destruct Hp as [Hc Hne].
    unfold completeOrder. rewrite (bind_Ret _ _ _ _ _ Hc).
    assert ((tableId =? -1) = false) as -> by lia.
    assert (orders_count tableId w1 = false) as ->; [|reflexivity].
    apply not_true_iff_false. rewrite orders_count_spec, Ho1, Ho.
    intros [x Hx]. discriminate.
  - destruct (pay_prompt_same _ _ _ Hp) as (Hs & _ & Hr & _).
    split; [|exact Hs]. destruct Hs as (_ & Ho1 & _). destruct Hp as [Hc Hne].
    unfold payForOrder. rewrite (bind_Ret _ _ _ _ _ Hc).
    assert ((tableId =? -1) = false) as -> by lia.
    assert (orders_count tableId w1 = false) as ->; [|reflexivity].
    apply not_true_iff_false. rewrite orders_count_spec, Ho1, Ho.
    intros [x Hx]. discriminate.
Qed.

Lemma no_order_found_witness :
  orders (set_cin (stdin_lines ["2"]%string) unfinished_world) !! 2 = None /\
  exists w1,
    pay_prompt (set_cin (stdin_lines ["2"]%string) unfinished_world) 2 w1 /\
    payForOrder (set_cin (stdin_lines ["2"]%string) unfinished_world) =
      Ret tt (add_cerr [OStr "No order found for Table "; OInt 2;
                        OStr ("." +:+ nl)] w1).
Proof.
  assert (orders (set_cin (stdin_lines ["2"]%string) unfinished_world) !! 2 = None)
    as Ho by (vm_compute; reflexivity).
  split; [exact Ho|].
  exists (run (checkOrderAndTableStatus "Enter table number to pay: ")
            (set_cin (stdin_lines ["2"]%string) unfinished_world)).
  assert (pay_prompt (set_cin (stdin_lines ["2"]%string) unfinished_world) 2
            (run (checkOrderAndTableStatus "Enter table number to pay: ")
               (set_cin (stdin_lines ["2"]%string) unfinished_world))) as Hp
    by (split; [vm_compute; reflexivity | discriminate]).
  split; [exact Hp|].
  exact (proj1 (proj2 (no_order_found _ 2 Ho) _ Hp)).
Defined.

(** X8.  With no order in the book, or with every order settled,
    [completeOrder] asks for no table: it prints "No pending orders / all
    have been completed and paid." and returns, the input unread and
    everything else unchanged. *)
Theorem completeOrder_nothing_pending (w : World) :
  (forall tableId o, orders w !! tableId = Some o ->
     isCompleted o = true /\ isPaid o = true) ->
  completeOrder w =
    Ret tt (add_cout
              [OStr ("No pending orders / all have been completed and paid." +:+ nl)] w).
Proof.
  intros Hall.
  assert (allOrdersPaidAndComplete w = true) as Ha
    by (apply allOrdersPaidAndComplete_spec; exact Hall).
  unfold completeOrder, checkOrderAndTableStatus, mbind, M_bind.
  rewrite Ha. reflexivity.
Qed.

Lemma completeOrder_nothing_pending_witness :
  completeOrder (start_world [])
    = Ret tt (add_cout
                [OStr ("No pending orders / all have been completed and paid." +:+ nl)]
                (start_world [])).
Proof.
  apply completeOrder_nothing_pending.
  intros tableId o Ho. exfalso.
  assert (orders (start_world []) = ∅) as He by reflexivity.
  rewrite He, lookup_empty in Ho. discriminate.
Defined.

(** ** Orders are only added to *)

Lemma order_grows_refl o : order_grows o o.
Proof. split; [exists []; now rewrite app_nil_r | auto]. Qed.

Lemma transition_grows w w' :
  transition w w' ->
  forall tableId o, orders w !! tableId = Some o ->
    exists o', orders w' !! tableId = Some o' /\ order_grows o o'.
Proof.
  intros Htr tableId o Ho.
  assert (forall t (o1 : Order) (m' : gmap Z Order),
            m' = <[t := o1]> (orders w) ->
            (orders w !! t = Some o -> order_grows o o1) ->
            exists o', m' !! tableId = Some o' /\ order_grows o o') as Hins.
  { intros t o1 m' -> Hg. destruct (decide (t = tableId)) as [->|Hne].
    - exists o1. rewrite lookup_insert_eq. auto.
    - exists o. rewrite lookup_insert_ne by exact Hne.
      split; [exact Ho | apply order_grows_refl]. }
  destruct Htr as [Hs | Hp _ _ _ | Hc | Hp].
  - destruct Hs as (_ & Ho' & _). exists o. rewrite Ho'.
    split; [exact Ho | apply order_grows_refl].
  - destruct Hp as [t _ _ _ Hob | t guests new_items _ _ _ _ Hob].
    + exists o. rewrite Hob. split; [exact Ho | apply order_grows_refl].
    + eapply Hins; [exact Hob|]. intros Ht. unfold order_at. rewrite Ht. simpl.
      split; [now exists new_items | auto].
  - destruct Hc as [t o0 _ Ht Hob _ _ _ _].
    eapply Hins; [exact Hob|]. rewrite Ht. intros [= ->]. simpl.
    split; [exists []; now rewrite app_nil_r | auto].
  - destruct Hp as [t o0 _ Ht Hdone Hob _ _ _ _].
    eapply Hins; [exact Hob|]. rewrite Ht. intros [= ->]. simpl.
    split; [exists []; now rewrite app_nil_r | auto].
Qed.

(** X9.  No operation takes anything back.  After [placeOrder],
    [completeOrder], [payForOrder] or a whole round of the main loop, every
    order that existed still exists, its earlier items come first in its item
    list, and a flag that was set is still set. *)
Theorem orders_only_grow (w w' : World) :
  placeOrder w = Ret tt w' \/ completeOrder w = Ret tt w' \/
  payForOrder w = Ret tt w' \/ (exists b, main_iter w = Ret b w') ->
  forall tableId o, orders w !! tableId = Some o ->
    exists o',
      orders w' !! tableId = Some o' /\
      (exists more, items o' = items o ++ more) /\
      (isCompleted o = true -> isCompleted o' = true) /\
      (isPaid o = true -> isPaid o' = true).
Proof.
  intros H. apply transition_grows.
  destruct H as [H | [H | [H | [b H]]]].
  - eapply placeOrder_transition; exact H.
  - eapply completeOrder_transition; exact H.
  - eapply payForOrder_transition; exact H.
  - eapply main_iter_transition; exact H.
Qed.

Lemma orders_only_grow_witness :
  orders (reorder_world 3) !! 1 = Some (mkOrder [RAW_FISH] true true) /\
  exists o',
    orders (reorder_world 4) !! 1 = Some o' /\
    (exists more, items o' = [RAW_FISH] ++ more) /\
    isCompleted o' = true /\ isPaid o' = true.
Proof.
  assert (orders (reorder_world 3) !! 1 = Some (mkOrder [RAW_FISH] true true)) as Ho
    by (vm_compute; reflexivity).
  assert (main_iter (reorder_world 3) = Ret true (reorder_world 4)) as Hstep
    by (vm_compute; reflexivity).
  split; [exact Ho|].
  destruct (orders_only_grow (reorder_world 3) (reorder_world 4)
              (or_intror (or_intror (or_intror (ex_intro _ true Hstep)))) 1 _ Ho)
    as (o' & Ho' & Hmore & Hc & Hp).
  exists o'. split; [exact Ho'|]. split; [exact Hmore|].
  split; [exact (Hc eq_refl) | exact (Hp eq_refl)].
Defined.

(** ** The shape of the reachable worlds *)

Lemma transition_shape w w' :
  transition w w' -> seats_ok w ->
  tables_fixed w /\ orders_placed w /\ guests_ordered w ->
  tables_fixed w' /\ orders_placed w' /\ guests_ordered w'.
Proof.
  intros Htr Hok (Hfix & Hord & Hgo).
  unfold tables_fixed in Hfix.
  assert (forall t, 1 <= t <= TABLE_QTY -> tables w !! t = Some (table_at w t)) as Hat.
  { intros t Hr. apply Hfix in Hr as [x Hx]. unfold table_at. now rewrite Hx. }
  (* inserting at a table of the range keeps the set of tables *)
  assert (forall t x (m' : gmap Z Table), 1 <= t <= TABLE_QTY ->
            m' = <[t := x]> (tables w) ->
            forall id, is_Some (m' !! id) <-> 1 <= id <= TABLE_QTY) as Hkeys.
  { intros t x m' Hr -> id. rewrite lookup_insert_is_Some. split.
    - intros [<- | [_ H]]; [exact Hr | now apply Hfix].
    - intros H. destruct (decide (t = id)) as [He|Hne]; [now left|].
      right. split; [exact Hne | now apply Hfix]. }
  destruct Htr as [Hs | Hp _ _ _ | Hc | Hp].
  - destruct Hs as (Ht & Ho & _). unfold tables_fixed, orders_placed,
      guests_ordered, order_at in *. rewrite Ht, Ho. auto.
  - destruct Hp as [t Hr _ Htb Hob | t guests new_items Hr Hg Hlen Htb Hob].
    + rewrite insert_id in Htb by (now apply Hat).
      unfold tables_fixed, orders_placed, guests_ordered, order_at in *.
      rewrite Htb, Hob. auto.
    + rewrite (availableSeats_at_ok _ _ Hok) in Hg.
      destruct (table_at_ok w t Hok) as [Hcap Hseat].
      split; [|split].
      * unfold tables_fixed. eapply Hkeys; eassumption.
      * intros id o. rewrite Hob. intros Hl.
        apply lookup_insert_Some in Hl as [[<- <-]|[Hne Hl]]; [|eauto].
        split; [exact Hr|]. simpl. intros Happ.
        apply (f_equal (@length Entrees)) in Happ.
        rewrite length_app, Hlen in Happ. simpl in Happ. lia.
      * intros id x. rewrite Htb. unfold order_at. rewrite Hob. intros Hl.
        apply lookup_insert_Some in Hl as [[<- <-]|[Hne Hl]].
        -- rewrite lookup_insert_eq. simpl. rewrite length_app, Hlen.
           unfold int_add. rewrite wrap_int_small
             by (unfold TABLE_CAPACITY, INT_MIN, INT_MAX in *; lia).
           pose proof (Hgo t _ (Hat t Hr)) as Hle. lia.
        -- rewrite lookup_insert_ne by exact Hne. now apply Hgo.
  - destruct Hc as [t o Hr Ht Hob Htb _ _ _].
    split; [|split].
    + unfold tables_fixed in *. now rewrite Htb.
    + intros id o'. rewrite Hob. intros Hl.
      apply lookup_insert_Some in Hl as [[<- <-]|[Hne Hl]]; [|eauto].
      simpl. eauto.
    + intros id x. rewrite Htb. unfold order_at. rewrite Hob. intros Hl.
      pose proof (Hgo id x Hl) as Hle. unfold order_at in Hle.
      destruct (decide (t = id)) as [<-|Hne].
      * rewrite lookup_insert_eq. simpl. now rewrite Ht in Hle.
      * now rewrite lookup_insert_ne by exact Hne.
  - destruct Hp as [t o Hr Ht Hdone Hob Htb _ _ _].
    split; [|split].
    + unfold tables_fixed. eapply Hkeys; eassumption.
    + intros id o'. rewrite Hob. intros Hl.
      apply lookup_insert_Some in Hl as [[<- <-]|[Hne Hl]]; [|eauto].
      simpl. eauto.
    + intros id x. rewrite Htb. unfold order_at. rewrite Hob. intros Hl.
      apply lookup_insert_Some in Hl as [[<- <-]|[Hne Hl]].
      * simpl. lia.
      * rewrite lookup_insert_ne by exact Hne. now apply Hgo.
Qed.

Lemma reachable_shape w :
  reachable w -> tables_fixed w /\ orders_placed w /\ guests_ordered w.
Proof.
  intros Hr. induction Hr as [input rs w H | w w' b Hr IH H | w w' Hr IH H
                             | w w' Hr IH H | w w' Hr IH H | w s Hr IH].
  - rewrite initializeTables_Ret in H. inversion H; subst w.
    unfold tables_fixed, orders_placed, guests_ordered, order_at, init_world.
    wsimpl. split; [|split].
    + intros id. rewrite !lookup_insert_is_Some, lookup_empty.
      unfold TABLE_QTY. split.
      * intros [<-|[_ [<-|[_ [<-|[_ [<-|[_ [x Hx]]]]]]]]]; try lia. discriminate.
      * intros Hid.
        assert (id = 1 \/ id = 2 \/ id = 3 \/ id = 4) as Hc by lia.
        destruct Hc as [-> | [-> | [-> | ->]]].
        -- right; split; [lia|]. right; split; [lia|]. right; split; [lia|].
           now left.
        -- right; split; [lia|]. right; split; [lia|]. now left.
        -- right; split; [lia|]. now left.
        -- now left.
    + intros id o Hl. rewrite lookup_empty in Hl. discriminate.
    + intros id t Hl. rewrite lookup_empty. simpl.
      repeat (apply lookup_insert_Some in Hl as [[_ <-]|[_ Hl]]; [simpl; lia|]).
      rewrite lookup_empty in Hl. discriminate.
  - eapply transition_shape; [eapply main_iter_transition; exact H | | exact IH].
    now apply reachable_invariants.
  - eapply transition_shape; [eapply placeOrder_transition; exact H | | exact IH].
    now apply reachable_invariants.
  - eapply transition_shape; [eapply completeOrder_transition; exact H | | exact IH].
    now apply reachable_invariants.
  - eapply transition_shape; [eapply payForOrder_transition; exact H | | exact IH].
    now apply reachable_invariants.
  - exact IH.
Qed.

(** X10.  The set of tables never changes while the program runs: in every
    reachable world table [tableId] exists iff [1 <= tableId <= TABLE_QTY],
    and each of them has the capacity [TABLE_CAPACITY] it was created
    with. *)
Theorem tables_never_change (w : World) :
  reachable w ->
  forall tableId,
    (is_Some (tables w !! tableId) <-> 1 <= tableId <= TABLE_QTY) /\
    (forall t, tables w !! tableId = Some t -> capacity t = TABLE_CAPACITY).
Proof.
  intros Hr tableId. split.
  - now apply reachable_shape.
  - intros t Ht. destruct (reachable_invariants w Hr) as [Hok _].
    now destruct (Hok tableId t Ht).
Qed.

Lemma tables_never_change_witness :
  reachable repay_world /\
  (is_Some (tables repay_world !! 3) <-> 1 <= 3 <= TABLE_QTY) /\
  tables repay_world !! 5 = None.
Proof.
  split; [apply repay_world_reachable|].
  split; [exact (proj1 (tables_never_change repay_world repay_world_reachable 3))|].
  vm_compute. reflexivity.
Defined.

(** X11.  In every reachable world an order belongs to one of the tables 1
    to [TABLE_QTY] and holds at least one item. *)
Theorem orders_have_items (w : World) :
  reachable w ->
  forall tableId o, orders w !! tableId = Some o ->
    1 <= tableId <= TABLE_QTY /\ items o <> [].
Proof. intros Hr. now apply reachable_shape. Qed.

Lemma orders_have_items_witness :
  reachable repay_world /\
  orders repay_world !! 2 = Some (mkOrder [HAM] false false) /\
  1 <= 2 <= TABLE_QTY /\ [HAM] <> [].
Proof.
  assert (orders repay_world !! 2 = Some (mkOrder [HAM] false false)) as Ho
    by (vm_compute; reflexivity).
  split; [apply repay_world_reachable|]. split; [exact Ho|].
  exact (orders_have_items repay_world repay_world_reachable 2 _ Ho).
Defined.

(** X12.  In every reachable world the guests seated at a table have all
    ordered: the table has an order, with at least as many items as there are
    guests at the table (more when earlier guests have paid and left). *)
Theorem seated_guests_have_ordered (w : World) :
  reachable w ->
  forall tableId t, tables w !! tableId = Some t ->
    (0 < seatedGuests t -> is_Some (orders w !! tableId)) /\
    seatedGuests t <= Z.of_nat (length (items (order_at w tableId))).
Proof.
  intros Hr tableId t Ht.
  destruct (reachable_shape w Hr) as (_ & _ & Hgo).
  pose proof (Hgo tableId t Ht) as Hle. split; [|exact Hle].
  intros Hpos. unfold order_at in Hle.
  destruct (orders w !! tableId) as [o|]; [eauto|]. simpl in Hle. lia.
Qed.

Lemma seated_guests_have_ordered_witness :
  reachable unfinished_world /\
  tables unfinished_world !! 1 = Some (mkTable 4 2) /\
  is_Some (orders unfinished_world !! 1) /\
  2 <= Z.of_nat (length (items (order_at unfinished_world 1))).
Proof.
  assert (tables unfinished_world !! 1 = Some (mkTable 4 2)) as Ht
    by (vm_compute; reflexivity).
  split; [apply unfinished_world_reachable|]. split; [exact Ht|].
  destruct (seated_guests_have_ordered unfinished_world unfinished_world_reachable
              1 _ Ht) as [H1 H2].
  split; [apply H1; simpl; lia | exact H2].
Defined.

(** X13.  [placeOrder] takes one menu choice per guest.  When it returns
    from a world whose seat counts are in range, there are a table of the
    range and a number [guests] between 0 and 4 such that the table has
    [guests] guests more and its order [guests] items more, appended after
    the ones it had; every other table and order is untouched. *)
Theorem placeOrder_one_item_per_guest (w w' : World) :
  seats_ok w ->
  placeOrder w = Ret tt w' ->
  exists tableId guests new_items,
    1 <= tableId <= TABLE_QTY /\ 0 <= guests <= TABLE_CAPACITY /\
    Z.of_nat (length new_items) = guests /\
    seatedGuests (table_at w' tableId) = seatedGuests (table_at w tableId) + guests /\
    items (order_at w' tableId) = items (order_at w tableId) ++ new_items /\
    (forall other, other <> tableId ->
       tables w' !! other = tables w !! other /\
       orders w' !! other = orders w !! other).
Proof.
  intros Hok H. apply placeOrder_Ret in H as (Hp & _).
  destruct Hp as [t Hr _ Htb Hob | t guests new_items Hr Hg Hlen Htb Hob];
    destruct (table_at_ok w t Hok) as [Hcap Hseat].
  - exists t, 0, []. split; [exact Hr|].
    split; [unfold TABLE_CAPACITY; lia|]. split; [reflexivity|].
    unfold table_at, order_at. rewrite Htb, Hob, lookup_insert_eq. simpl.
    split; [unfold table_at; lia|]. split; [now rewrite app_nil_r|].
    intros other Hne. now rewrite lookup_insert_ne by congruence.
  - rewrite (availableSeats_at_ok _ _ Hok) in Hg.
    exists t, guests, new_items. split; [exact Hr|].
    split; [lia|]. split; [lia|].
    unfold table_at at 1, order_at at 1. rewrite Htb, Hob, !lookup_insert_eq. simpl.
    split.
    { unfold int_add. apply wrap_int_small.
      unfold TABLE_CAPACITY, INT_MIN, INT_MAX in *. lia. }
    split; [reflexivity|].
    intros other Hne. now rewrite !lookup_insert_ne by congruence.
Qed.

Lemma placeOrder_one_item_per_guest_witness :
  seats_ok (start_world overfull_input) /\
  exists w' tableId guests (new_items : list Entrees),
    placeOrder (start_world overfull_input) = Ret tt w' /\
    1 <= tableId <= TABLE_QTY /\ 0 <= guests <= TABLE_CAPACITY /\
    Z.of_nat (length new_items) = guests /\
    seatedGuests (table_at w' tableId)
      = seatedGuests (table_at (start_world overfull_input) tableId) + guests.
Proof.
  assert (seats_ok (start_world overfull_input)) as Hok
    by exact (proj1 (reachable_invariants _ (start_world_reachable overfull_input))).
  assert (placeOrder (start_world overfull_input)
          = Ret tt (run placeOrder (start_world overfull_input))) as Hp
    by (vm_compute; reflexivity).
  split; [exact Hok|].
  destruct (placeOrder_one_item_per_guest _ _ Hok Hp)
    as (t & g & l & Hr & Hg & Hl & Hs & _).
  exists (run placeOrder (start_world overfull_input)), t, g, l.
  split; [exact Hp|]. split; [exact Hr|]. split; [exact Hg|].
  split; [exact Hl | exact Hs].
Defined.

(** ** The bill *)

Lemma wrap_int_add_l a p : wrap_int (wrap_int a + p) = wrap_int (a + p).
Proof.
  unfold wrap_int. f_equal.
  replace ((a + 2147483648) mod 4294967296 - 2147483648 + p + 2147483648)
    with ((a + 2147483648) mod 4294967296 + p) by lia.
  rewrite Zplus_mod_idemp_l. f_equal. lia.
Qed.

Lemma subtotal_fold l a :
  fold_left (fun acc item => int_add acc (entreePrices_at (Entrees_value item)))
    l (wrap_int a)
  = wrap_int (a + prices_sum l).
Proof.
  revert a. induction l as [|item l IH]; intros a; simpl.
  - now rewrite Z.add_0_r.
  - unfold int_add at 2. rewrite wrap_int_add_l, IH. f_equal. lia.
Qed.

Lemma subtotal_sum l : subtotal (bill_of l) = wrap_int (prices_sum l).
Proof.
  unfold bill_of. cbn [subtotal].
  change 0 with (wrap_int 0) at 1. now rewrite subtotal_fold.
Qed.




Lemma price_bounds item : 35 <= entreePrices_at (Entrees_value item) <= 45.
Proof. destruct item; vm_compute; split; discriminate. Qed.

Lemma prices_sum_bounds l :
  35 * Z.of_nat (length l) <= prices_sum l <= 45 * Z.of_nat (length l).
Proof.
  induction l as [|x l IH]; [simpl; lia|].
  pose proof (price_bounds x). cbn [prices_sum foldr length].
  fold (prices_sum l). lia.
Qed.



(** X15.  Up to 47721858 items the subtotal is the exact sum of the prices,
    with no [int] overflow, and lies between 35 and 45 times the number of
    items. *)
Theorem subtotal_exact (l : list Entrees) :
  Z.of_nat (length l) <= 47721858 ->
  subtotal (bill_of l) = prices_sum l /\
  35 * Z.of_nat (length l) <= subtotal (bill_of l) <= 45 * Z.of_nat (length l).
Proof.
  intros Hlen. pose proof (prices_sum_bounds l) as Hb.
  rewrite subtotal_sum, wrap_int_small; [split; [reflexivity | exact Hb]|].
  unfold INT_MIN, INT_MAX. lia.
Qed.

Lemma subtotal_exact_witness :
  subtotal (bill_of [HAM; BISC; TOAST]) = prices_sum [HAM; BISC; TOAST] /\
  35 * 3 <= subtotal (bill_of [HAM; BISC; TOAST]) <= 45 * 3.
Proof.
  apply (subtotal_exact [HAM; BISC; TOAST]). simpl. lia.
Defined.

(** ** The receipt *)

Lemma transId_of_range r : 0 <= r -> 1000 <= transId_of r <= 9999.
Proof.
  intros Hr. unfold transId_of, int_add.
  pose proof (Z.rem_bound_pos r 9000 Hr ltac:(lia)) as Hb.
  rewrite wrap_int_small; unfold INT_MIN, INT_MAX; lia.
Qed.

(** X16.  A confirmed payment draws one value [r] of [rand()] and writes the
    receipt to "Transaction#<id>.txt" with [id = r % 9000 + 1000], a number
    of four digits when [r] is not negative.  The file of that name is
    replaced whatever it held, and values of [rand()] that are 9000 apart
    give the same id, so a later payment can overwrite an earlier receipt. *)
Theorem receipt_file (w w1 : World) (tableId : Z) (order : Order)
    (c : ascii) (rest : string) :
  pay_prompt w tableId w1 ->
  orders w !! tableId = Some order ->
  isCompleted order = true ->
  read_char (cin w1) = (Some c, rest) ->
  c = ("y"%char) \/ c = ("Y"%char) ->
  0 <= rand_seq w (rand_calls w) ->
  exists w',
    payForOrder w = Ret tt w' /\
    1000 <= transId_of (rand_seq w (rand_calls w)) <= 9999 /\
    transId_of (rand_seq w (rand_calls w) + 9000)
      = transId_of (rand_seq w (rand_calls w)) /\
    files w' =
      <[receipt_name (transId_of (rand_seq w (rand_calls w))) :=
          receipt tableId (mkOrder (items order) true true) (bill_of (items order))]>
        (files w) /\
    rand_calls w' = S (rand_calls w).
Proof.
  intros Hp Ho Hdone Hread Hy Hr.
  exists (paid_world tableId order rest w1).
  split; [eapply payForOrder_confirmed; eassumption|].
  split; [now apply transId_of_range|].
  destruct (pay_prompt_same _ _ _ Hp) as ((_ & _ & Hf & Hrc & Hrs) & _).
  split.
  { unfold transId_of. f_equal.
    rewrite !Z.rem_mod_nonneg by lia.
    replace (rand_seq w (rand_calls w) + 9000)
      with (rand_seq w (rand_calls w) + 1 * 9000) by lia.
    apply Z_mod_plus_full. }
  unfold paid_world. cbn [files rand_calls]. fold (transId_of (rand_seq w1 (rand_calls w1))).
  rewrite Hdone, Hf, Hrc, Hrs. split; reflexivity.
Qed.

Lemma receipt_file_witness :
  exists w',
    payForOrder scenario_A_world = Ret tt w' /\
    1000 <= transId_of 0 <= 9999 /\
    files w' =
      <[receipt_name (transId_of 0) :=
          receipt 1 (mkOrder [RAW_FISH; EGGS] true true) (bill_of [RAW_FISH; EGGS])]>
        (files scenario_A_world).
Proof.
  assert (pay_prompt scenario_A_world 1
            (run (checkOrderAndTableStatus "Enter table number to pay: ")
               scenario_A_world)) as Hp
    by (split; [vm_compute; reflexivity | discriminate]).
  destruct (receipt_file _ _ 1 (mkOrder [RAW_FISH; EGGS] true false) "y"%char nl Hp)
    as (w' & Hpay & Hid & _ & Hfiles & _);
    [vm_compute; reflexivity | reflexivity | vm_compute; reflexivity
    | left; reflexivity | vm_compute; discriminate |].
  exists w'. split; [exact Hpay|]. split; [exact Hid | exact Hfiles].
Defined.

(** ** The menu and the main loop *)

Lemma pending_same w w' : orders w' = orders w -> pending w' = pending w.
Proof.
  intros Ho. unfold pending, orders_empty, allOrdersPaidAndComplete.
  now rewrite Ho.
Qed.

Lemma pending_not_canClose w : pending w = true -> canClose w = false.
Proof.
  unfold pending, canClose.
  destruct (orders_empty w), (allOrdersPaidAndComplete w); simpl; congruence.
Qed.

Lemma main_iter_dispatch w choice w1 :
  (showMenuOptions;; checkNum 1 4 choice_prompt) w = Ret choice w1 ->
  orders w1 = orders w /\
  main_iter w =
  match choice with
  | 1 => (placeOrder;; mret true) w1
  | 2 =>
      if pending w then (completeOrder;; mret true) w1
      else Ret true (add_cout [OStr ("No orders available to complete." +:+ nl)] w1)
  | 3 =>
      if pending w then (payForOrder;; mret true) w1
      else Ret true (add_cout [OStr ("No unpaid orders available." +:+ nl)] w1)
  | 4 =>
      if canClose w then Ret false (add_cout [OStr ("Goodbye!" +:+ nl)] w1)
      else Ret true (add_cout [OStr ("Cannot close — orders still pending." +:+ nl)] w1)
  | _ => Ret true (add_cout [OStr ("Invalid option. Please try again." +:+ nl)] w1)
  end.
Proof.
  intros H. apply bind_inv in H as (u & w0 & Hm & Hc).
  unfold main_iter. mstep Hm. mstep Hc.
  apply showMenuOptions_Ret in Hm as ((_ & Ho0 & _) & _).
  apply checkNum_Ret in Hc as (Hr & (_ & Ho1 & _) & _).
  assert (orders w1 = orders w) as Ho by congruence.
  split; [exact Ho|].
  fold (pending w1) (canClose w1).
  rewrite (pending_same w w1 Ho), (canClose_same w w1 Ho).
  assert (choice = 1 \/ choice = 2 \/ choice = 3 \/ choice = 4) as Hch by lia.
  destruct Hch as [-> | [-> | [-> | ->]]]; reflexivity.
Qed.

Ltac menu_shown :=
  unfold mbind, M_bind, cout_put, mret, M_ret; cbn beta iota; f_equal;
  apply World_eq; wsimpl; rewrite <- ?app_assoc; reflexivity.

(** X17.  The menu that [showMenuOptions] prints and the choices that [main]
    lets through agree.  "1. Enter Order" is always listed and always runs
    [placeOrder]; options 2 and 3 are listed exactly when some order is not
    settled, and exactly then choices 2 and 3 run [completeOrder] and
    [payForOrder]; option 4 is listed exactly when the restaurant can close,
    and exactly then choice 4 ends the service.  Options 2/3 and option 4
    are never listed together; a choice that is not listed is answered with
    a message and changes nothing. *)
Theorem menu_matches_dispatch (w : World) :
  exists shown,
    showMenuOptions w = Ret tt (add_cout shown w) /\
    In (OStr ("1. Enter Order" +:+ nl)) shown /\
    (In (OStr ("2. Complete Order" +:+ nl)) shown <-> pending w = true) /\
    (In (OStr ("3. Calculate and Pay Bill" +:+ nl)) shown <-> pending w = true) /\
    (In (OStr ("4. Close the Restaurant" +:+ nl)) shown <-> canClose w = true) /\
    (pending w = true -> canClose w = false) /\
    forall choice w1,
      (showMenuOptions;; checkNum 1 4 choice_prompt) w = Ret choice w1 ->
      (choice = 1 -> main_iter w = (placeOrder;; mret true) w1) /\
      (choice = 2 ->
         main_iter w =
           if pending w then (completeOrder;; mret true) w1
           else Ret true
                  (add_cout [OStr ("No orders available to complete." +:+ nl)] w1)) /\
      (choice = 3 ->
         main_iter w =
           if pending w then (payForOrder;; mret true) w1
           else Ret true
                  (add_cout [OStr ("No unpaid orders available." +:+ nl)] w1)) /\
      (choice = 4 ->
         main_iter w =
           if canClose w then Ret false (add_cout [OStr ("Goodbye!" +:+ nl)] w1)
           else Ret true
                  (add_cout [OStr ("Cannot close — orders still pending." +:+ nl)] w1)).
Proof.
  assert (exists shown,
            showMenuOptions w = Ret tt (add_cout shown w) /\
            In (OStr ("1. Enter Order" +:+ nl)) shown /\
            (In (OStr ("2. Complete Order" +:+ nl)) shown <-> pending w = true) /\
            (In (OStr ("3. Calculate and Pay Bill" +:+ nl)) shown <-> pending w = true) /\
            (In (OStr ("4. Close the Restaurant" +:+ nl)) shown <-> canClose w = true))
    as (shown & Hshow & H1 & H2 & H3 & H4).
  { unfold showMenuOptions, pending, canClose.
    destruct (orders_empty w), (allOrdersPaidAndComplete w); cbn [negb andb].
    - exists [OStr (nl +:+ "--- MESSIJOE'S MAIN MENU ---" +:+ nl);
              OStr ("1. Enter Order" +:+ nl)].
      split; [menu_shown|]. simpl.
      repeat split; intros; intuition (try discriminate; auto).
    - exists [OStr (nl +:+ "--- MESSIJOE'S MAIN MENU ---" +:+ nl);
              OStr ("1. Enter Order" +:+ nl)].
      split; [menu_shown|]. simpl.
      repeat split; intros; intuition (try discriminate; auto).
    - exists [OStr (nl +:+ "--- MESSIJOE'S MAIN MENU ---" +:+ nl);
              OStr ("1. Enter Order" +:+ nl);
              OStr ("4. Close the Restaurant" +:+ nl)].
      split; [menu_shown|]. simpl.
      repeat split; intros; intuition (try discriminate; auto).
    - exists [OStr (nl +:+ "--- MESSIJOE'S MAIN MENU ---" +:+ nl);
              OStr ("1. Enter Order" +:+ nl);
              OStr ("2. Complete Order" +:+ nl);
              OStr ("3. Calculate and Pay Bill" +:+ nl)].
      split; [menu_shown|]. simpl.
      repeat split; intros; intuition (try discriminate; auto). }
  exists shown. split; [exact Hshow|]. split; [exact H1|]. split; [exact H2|].
  split; [exact H3|]. split; [exact H4|]. split; [apply pending_not_canClose|].
  intros choice w1 Hread.
  destruct (main_iter_dispatch _ _ _ Hread) as [_ Hd].
  repeat split; intros ->; exact Hd.
Qed.

(** X18.  On a fresh system, and whenever the order book is empty, choices
    2, 3 and 4 do nothing: they are answered with "No orders available to
    complete.", "No unpaid orders available." and "Cannot close — orders
    still pending." (although no order is pending), the service goes on and
    tables, orders and files are as before. *)
Theorem empty_book_refuses (w w1 : World) (choice : Z) :
  orders w = ∅ ->
  (showMenuOptions;; checkNum 1 4 choice_prompt) w = Ret choice w1 ->
  2 <= choice ->
  exists msg,
    main_iter w = Ret true (add_cout [OStr (msg +:+ nl)] w1) /\
    (choice = 2 -> msg = "No orders available to complete."%string) /\
    (choice = 3 -> msg = "No unpaid orders available."%string) /\
    (choice = 4 -> msg = "Cannot close — orders still pending."%string) /\
    same_state w (add_cout [OStr (msg +:+ nl)] w1).
Proof.
  intros He Hread Hc.
  assert (pending w = false) as Hp.
  { unfold pending. apply orders_empty_spec in He. now rewrite He. }
  assert (canClose w = false) as Hcc.
  { unfold canClose. apply orders_empty_spec in He. now rewrite He. }
  destruct (main_iter_dispatch _ _ _ Hread) as [_ Hd]. rewrite Hp, Hcc in Hd.
  pose proof Hread as Hread'.
  apply bind_inv in Hread' as (u & w0 & Hm & Hn).
  apply showMenuOptions_Ret in Hm as (Hs0 & _).
  apply checkNum_Ret in Hn as (Hr & Hs1 & _).
  assert (same_state w w1) as Hs by (eapply same_state_trans; eassumption).
  assert (choice = 2 \/ choice = 3 \/ choice = 4) as Hch by lia.
  destruct Hch as [-> | [-> | ->]].
  - exists "No orders available to complete."%string.
    split; [exact Hd|]. repeat split; try (intros; lia || reflexivity); apply Hs.
  - exists "No unpaid orders available."%string.
    split; [exact Hd|]. repeat split; try (intros; lia || reflexivity); apply Hs.
  - exists "Cannot close — orders still pending."%string.
    split; [exact Hd|]. repeat split; try (intros; lia || reflexivity); apply Hs.
Qed.

Lemma empty_book_refuses_witness :
  orders (start_world ["4"]%string) = ∅ /\
  exists w1,
    (showMenuOptions;; checkNum 1 4 choice_prompt) (start_world ["4"]%string)
      = Ret 4 w1 /\
    main_iter (start_world ["4"]%string) =
      Ret true (add_cout [OStr ("Cannot close — orders still pending." +:+ nl)] w1).
Proof.
  assert (orders (start_world ["4"]%string) = ∅) as He by reflexivity.
  assert ((showMenuOptions;; checkNum 1 4 choice_prompt) (start_world ["4"]%string)
          = Ret 4 (run (showMenuOptions;; checkNum 1 4 choice_prompt)
                     (start_world ["4"]%string))) as Hread
    by (vm_compute; reflexivity).
  split; [exact He|]. eexists. split; [exact Hread|].
  destruct (empty_book_refuses _ _ 4 He Hread ltac:(lia)) as (msg & Hm & _ & _ & H4 & _).
  rewrite (H4 eq_refl) in Hm. exact Hm.
Defined.

Lemma main_loop_Ret fuel w z w' :
  main_loop fuel w = Ret z w' ->
  z = 0 /\ canClose w' = true /\
  exists w1, w' = add_cout [OStr ("Goodbye!" +:+ nl)] w1.
Proof.
  revert w. induction fuel as [|fuel IH]; intros w; [discriminate|].
  simpl. intros H. apply bind_inv in H as (inService & w0 & Hi & H).
  destruct inService; [eauto|].
  inversion H; subst z w'; clear H.
  destruct (main_iter_stops _ _ Hi) as [w1 Hread].
  destruct (main_iter_dispatch _ _ _ Hread) as [Ho Hd].
  rewrite Hd in Hi.
  destruct (canClose w) eqn:Hc; inversion Hi; subst w0.
  split; [reflexivity|]. split; [|now exists w1].
  rewrite <- Hc. apply canClose_same. wsimpl. exact Ho.
Qed.

(** X19.  The program ends in one way only.  When [main] returns, it returns
    0, the last thing it printed is "Goodbye!", at least one order exists and
    every order is completed and paid. *)
Theorem main_returns_settled (w w' : World) (z : Z) :
  main w = Ret z w' ->
  z = 0 /\
  (exists shown, cout w' = shown ++ [OStr ("Goodbye!" +:+ nl)]) /\
  orders w' <> ∅ /\
  forall tableId o, orders w' !! tableId = Some o ->
    isCompleted o = true /\ isPaid o = true.
Proof.
  unfold main. intros H. apply bind_inv in H as (u & w0 & _ & H).
  apply main_loop_Ret in H as (Hz & Hc & w1 & ->).
  split; [exact Hz|]. split; [exists (cout w1); reflexivity|].
  apply canClose_spec in Hc as [Hne Hall]. split; [exact Hne | exact Hall].
Qed.

Lemma main_returns_settled_witness :
  exists w',
    main (init_world (stdin_lines closing_input) rand_count) = Ret 0 w' /\
    orders w' !! 1 = Some (mkOrder [RAW_FISH; EGGS] true true) /\
    (forall tableId o, orders w' !! tableId = Some o ->
       isCompleted o = true /\ isPaid o = true).
Proof.
  assert (main (init_world (stdin_lines closing_input) rand_count)
          = Ret 0 (run main (init_world (stdin_lines closing_input) rand_count)))
    as H by (vm_compute; reflexivity).
  eexists. split; [exact H|]. split; [vm_compute; reflexivity|].
  exact (proj2 (proj2 (proj2 (main_returns_settled _ _ _ H)))).
Defined.

(** ** The status report *)

(** X20.  In every reachable world [checkTableStatus] reports every order of
    the book, on a line "Table #N status: ..." whose text follows the flags:
    "all done" iff the order is completed and paid, "awaiting payment" iff it
    is completed and not paid, "awaiting completion" iff it is neither.  The
    report changes nothing but [cout]. *)
Theorem status_reported (w : World) (tableId : Z) (o : Order) :
  reachable w ->
  orders w !! tableId = Some o ->
  (exists before after,
     checkTableStatus w =
       Ret tt (add_cout
                 (before ++
                  [OStr "Table #"; OInt tableId; OStr " status: ";
                   OStr (status_text o); OEndl] ++ after) w)) /\
  (status_text o = "all done"%string <->
     isCompleted o = true /\ isPaid o = true) /\
  (status_text o = "awaiting payment"%string <->
     isCompleted o = true /\ isPaid o = false) /\
  (status_text o = "awaiting completion"%string <->
     isCompleted o = false /\ isPaid o = false).
Proof.
  intros Hr Ho.
  destruct (reachable_shape w Hr) as (_ & Hord & _).
  destruct (Hord _ _ Ho) as [Hrange _].
  destruct (reachable_invariants w Hr) as [_ Hpaid].
  pose proof (Hpaid _ _ Ho) as Hpc.
  split.
  - destruct (checkTableStatus_shows w tableId Hrange) as (before & after & H).
    exists before, after. rewrite H. unfold checkTableStatus_line. now rewrite Ho.
  - unfold status_text.
    destruct (isCompleted o), (isPaid o); simpl;
      repeat split; intros; try discriminate; try tauto;
      try (exfalso; discriminate Hpc; reflexivity);
      try (destruct H; discriminate).
    all: specialize (Hpc eq_refl); discriminate.
Qed.

Lemma status_reported_witness :
  reachable repay_world /\
  orders repay_world !! 2 = Some (mkOrder [HAM] false false) /\
  exists before after,
    checkTableStatus repay_world =
      Ret tt (add_cout
                (before ++
                 [OStr "Table #"; OInt 2; OStr " status: ";
                  OStr "awaiting completion"; OEndl] ++ after) repay_world).
Proof.
  assert (orders repay_world !! 2 = Some (mkOrder [HAM] false false)) as Ho
    by (vm_compute; reflexivity).
  split; [apply repay_world_reachable|]. split; [exact Ho|].
  exact (proj1 (status_reported repay_world 2 _ repay_world_reachable Ho)).
Defined.

(** ** The confirmation at the end of the input *)

(** X21.  When the input ends before the confirmation, with nothing but
    white space left after the table number, [cin >> confirm] fails and
    [payForOrder] goes on to test [confirm], which was never initialised: the
    outcome of the call is not defined by the source. *)
Theorem confirmation_at_end_of_input (w w1 : World) (tableId : Z) (order : Order) :
  pay_prompt w tableId w1 ->
  orders w !! tableId = Some order ->
  isCompleted order = true ->
  skipws (cin w1) = EmptyString ->
  payForOrder w = Undef.
Proof.
  intros Hp Ho Hdone Hend.
  destruct (pay_prompt_same _ _ _ Hp) as ((_ & Ho1 & _) & _ & Hr & _).
  destruct Hp as [Hc Hne].
  unfold payForOrder. rewrite (bind_Ret _ _ _ _ _ Hc).
  assert ((tableId =? -1) = false) as -> by lia.
  rewrite <- Ho1 in Ho.
  assert (orders_count tableId w1 = true) as ->
    by (apply orders_count_spec; eauto).
  simpl. unfold mbind, M_bind, orders_index.
  rewrite (map_index_Some _ _ _ _ Ho), set_orders_id, Hdone. simpl.
  unfold cin_char, read_char. simpl. now rewrite Hend.
Qed.

Lemma confirmation_at_end_of_input_witness :
  orders scenario_A_world !! 1 = Some (mkOrder [RAW_FISH; EGGS] true false) /\
  payForOrder (set_cin (stdin_lines ["1"]%string) scenario_A_world) = Undef.
Proof.
  assert (orders (set_cin (stdin_lines ["1"]%string) scenario_A_world) !! 1
          = Some (mkOrder [RAW_FISH; EGGS] true false)) as Ho
    by (vm_compute; reflexivity).
  split; [exact Ho|].
  apply (confirmation_at_end_of_input _
           (run (checkOrderAndTableStatus "Enter table number to pay: ")
              (set_cin (stdin_lines ["1"]%string) scenario_A_world)) 1
           (mkOrder [RAW_FISH; EGGS] true false));
    [split; [vm_compute; reflexivity | discriminate] | exact Ho | reflexivity
    | vm_compute; reflexivity].
Defined.
